(** * Contacts repository of the REST service: owner-scoped queries,
      upcoming birthdays and single-row CRUD.

    The development embeds [src/repository/contacts.py].  The relational
    store behind the SQLAlchemy session is modelled as the table of contact
    rows in store order; Python exceptions are an explicit [result]. *)

From stdpp Require Import base numbers option list strings relations.

Local Open Scope Z_scope.

(** ** Python values: exceptions and truthiness *)

Inductive exn : Set :=
| ValueError   (* datetime: field out of range; driver: NUL in a parameter *)
| DataError.   (* PostgreSQL: OFFSET / LIMIT negative or out of range *)

Inductive result (A : Type) : Type :=
| Ok (a : A)
| Raise (e : exn).
Arguments Ok {A} a.
Arguments Raise {A} e.

#[global] Instance result_bind : MBind result := fun _ _ f m =>
  match m with
  | Ok a => f a
  | Raise e => Raise e
  end.

(** [if s:] for an argument that is [None] or a [str]. *)
Definition truthy (s : option string) : bool :=
  match s with
  | Some (String _ _) => true
  | Some EmptyString => false
  | None => false
  end.

(** ** [datetime.date] (CPython's [datetime] module) *)

Module datetime.

Record date : Set := mk_date { year : Z; month : Z; day : Z }.

#[global] Instance date_eq_dec : EqDecision date.
Proof. solve_decision. Defined.

Definition MINYEAR : Z := 1.
Definition MAXYEAR : Z := 9999.

Definition DAYS_IN_MONTH : list Z :=
  [-1; 31; 28; 31; 30; 31; 30; 31; 31; 30; 31; 30; 31].
Definition DAYS_BEFORE_MONTH : list Z :=
  [-1; 0; 31; 59; 90; 120; 151; 181; 212; 243; 273; 304; 334].

Definition is_leap (y : Z) : bool :=
  (y mod 4 =? 0) && (negb (y mod 100 =? 0) || (y mod 400 =? 0)).

Definition days_before_year (y : Z) : Z :=
  let y' := y - 1 in
  y' * 365 + y' / 4 - y' / 100 + y' / 400.

Definition days_in_month (y m : Z) : Z :=
  if (m =? 2) && is_leap y then 29
  else nth (Z.to_nat m) DAYS_IN_MONTH (-1).

Definition days_before_month (y m : Z) : Z :=
  nth (Z.to_nat m) DAYS_BEFORE_MONTH (-1)
  + (if (2 <? m) && is_leap y then 1 else 0).

Definition ymd2ord (y m d : Z) : Z :=
  days_before_year y + days_before_month y m + d.

(** [_check_date_fields]: the constructor refuses fields out of range. *)
Definition check_date_fields (y m d : Z) : bool :=
  (MINYEAR <=? y) && (y <=? MAXYEAR)
  && (1 <=? m) && (m <=? 12)
  && (1 <=? d) && (d <=? days_in_month y m).

Definition valid (d : date) : Prop :=
  check_date_fields (year d) (month d) (day d) = true.

(** [d.replace(year=y)] builds a new date and so re-checks the fields. *)
Definition replace_year (d : date) (y : Z) : result date :=
  if check_date_fields y (month d) (day d)
  then Ok (mk_date y (month d) (day d))
  else Raise ValueError.

Definition toordinal (d : date) : Z := ymd2ord (year d) (month d) (day d).

(** [(a - b).days] *)
Definition sub_days (a b : date) : Z := toordinal a - toordinal b.

End datetime.

(** ** Rows and request bodies *)

Module User.
(** Modelled from the spec: the [User] class of [src/database/models.py]
    is not part of the sources; only its [id] is read by the repository. *)
Record t : Set := mk {
  id : Z;
  username : string;
  email : string;
  confirmed : bool
}.
End User.

Module ContactModel.
(** Modelled from the spec: the request schema of [src/schemas.py] is not
    part of the sources; [body.dict()] has exactly these five keys. *)
Record t : Set := mk {
  first_name : string;
  last_name : string;
  email : string;
  phone : string;
  date_of_birth : datetime.date
}.
End ContactModel.

Module Contact.
(** Modelled from the spec: the [Contact] class of
    [src/database/models.py] is not part of the sources.  The columns are
    those of the spec's data model; [user_id] is the owner reference and
    the two timestamps are generated by the store. *)
Record t : Set := mk {
  id : Z;
  first_name : string;
  last_name : string;
  email : string;
  phone : string;
  date_of_birth : datetime.date;
  created_at : Z;
  updated_at : Z;
  user_id : Z
}.

#[global] Instance eq_dec : EqDecision t.
Proof. solve_decision. Defined.
End Contact.

(** ** The session: the contacts table behind [db] *)

Record Session : Set := mk_session {
  rows : list Contact.t;   (* the table, in store order *)
  next_id : Z;             (* the primary-key sequence *)
  clock : Z                (* the store's clock, [func.now()] *)
}.

(** A column compared with a Python argument: [Contact.col == arg].  With
    [arg = None] the clause is [IS NULL], which no row of the modelled
    (non-null) columns satisfies.  Whether the driver can bind [arg] is
    decided when the query is executed, see [query_all]. *)
Definition col_eq (v : string) (arg : option string) : bool :=
  match arg with
  | Some s => bool_decide (v = s)
  | None => false
  end.

(** [db.query(Contact).filter(...)]: the rows that satisfy the clause, in
    store order. *)
Definition query_filter (p : Contact.t → bool) (db : Session) : list Contact.t :=
  filter (λ c, p c = true) (rows db).

(** [q1.union(q2)]: SQL [UNION] keeps one copy of each row.  The engine
    leaves the order of the rows of a union open; the model fixes one, and
    the statements on unions below are about membership. *)
Definition union (q1 q2 : list Contact.t) : list Contact.t :=
  remove_dups (q1 ++ q2).

(** The largest [bigint] of the engine, the type of [OFFSET] and [LIMIT]. *)
Definition BIGINT_MAX : Z := 9223372036854775807.

(** [.offset(skip).limit(limit).all()]: the engine refuses a negative
    offset or row count, and one that does not fit a [bigint]. *)
Definition offset_limit (skip limit : Z) (q : list Contact.t)
  : result (list Contact.t) :=
  if (skip <? 0) || (limit <? 0) || (BIGINT_MAX <? skip) || (BIGINT_MAX <? limit)
  then Raise DataError
  else Ok (take (Z.to_nat limit) (drop (Z.to_nat skip) q)).

(** The string holds the character U+0000.  (A [string] is the UTF-8
    encoding of the Python [str]; only U+0000 has a zero byte in it.) *)
Fixpoint has_nul (s : string) : bool :=
  match s with
  | EmptyString => false
  | String a s' => Ascii.eqb a Ascii.zero || has_nul s'
  end.

(** A Python argument that the driver can bind as a query parameter: it
    refuses a [str] with a NUL character; [None] is not bound at all. *)
Definition bindable (arg : option string) : bool :=
  match arg with
  | Some s => negb (has_nul s)
  | None => true
  end.

(** [.all()] on a query whose clauses bind the arguments [params]: the
    statement is sent with its parameters, and the driver raises
    [ValueError] on one it cannot bind. *)
Definition query_all (params : list (option string)) (q : list Contact.t)
  : result (list Contact.t) :=
  if forallb bindable params then Ok q else Raise ValueError.

(** [.first()] on the table: the first row that satisfies the clause,
    together with its position, which stands for the identity of the
    loaded object. *)
Definition query_first (p : Contact.t → bool) (db : Session)
  : option (nat * Contact.t) :=
  list_find (λ c, p c = true) (rows db).

(** ** [src/repository/contacts.py] *)

Definition by_first_name (first_name : option string) (user : User.t)
  (c : Contact.t) : bool :=
  col_eq (Contact.first_name c) first_name && (Contact.user_id c =? User.id user).

Definition by_last_name (last_name : option string) (user : User.t)
  (c : Contact.t) : bool :=
  col_eq (Contact.last_name c) last_name && (Contact.user_id c =? User.id user).

Definition by_email (email : option string) (user : User.t)
  (c : Contact.t) : bool :=
  col_eq (Contact.email c) email && (Contact.user_id c =? User.id user).

Definition by_owner (user : User.t) (c : Contact.t) : bool :=
  Contact.user_id c =? User.id user.

Definition by_id_owner (contact_id : Z) (user : User.t) (c : Contact.t) : bool :=
  (Contact.id c =? contact_id) && (Contact.user_id c =? User.id user).

Definition get_contacts (skip limit : Z) (first_name last_name email : option string)
  (user : User.t) (db : Session) : result (list Contact.t) :=
  let first_name_query := query_filter (by_first_name first_name user) db in
  let last_name_query := query_filter (by_last_name last_name user) db in
  let email_query := query_filter (by_email email user) db in
  if truthy first_name && truthy last_name && truthy email then
    query_all [first_name; last_name; email]
      (union (union first_name_query last_name_query) email_query)
  else if truthy first_name && truthy last_name then
    query_all [first_name; last_name] (union first_name_query last_name_query)
  else if truthy first_name && truthy email then
    query_all [first_name; email] (union first_name_query email_query)
  else if truthy last_name && truthy email then
    query_all [last_name; email] (union last_name_query email_query)
  else if truthy first_name then query_all [first_name] first_name_query
  else if truthy last_name then query_all [last_name] last_name_query
  else if truthy email then query_all [email] email_query
  else offset_limit skip limit (query_filter (by_owner user) db).

(** The body of the [for contact in contacts] loop, with the list
    [contacts_with_birthdays] built so far as accumulator. *)
Fixpoint birthdays_loop (today : datetime.date) (contacts : list Contact.t)
  (contacts_with_birthdays : list Contact.t) : result (list Contact.t) :=
  match contacts with
  | [] => Ok contacts_with_birthdays
  | contact :: rest =>
      d ← datetime.replace_year (Contact.date_of_birth contact) (datetime.year today);
      let td := datetime.sub_days d today in
      if (0 <=? td) && (td <=? 7)
      then birthdays_loop today rest (contacts_with_birthdays ++ [contact])
      else birthdays_loop today rest contacts_with_birthdays
  end.

(** [today] is the value read from [date.today()]. *)
Definition get_contacts_birthdays (today : datetime.date) (skip limit : Z)
  (user : User.t) (db : Session) : result (list Contact.t) :=
  contacts ← offset_limit skip limit (query_filter (by_owner user) db);
  birthdays_loop today contacts [].

Definition get_contact_by_id (contact_id : Z) (user : User.t) (db : Session)
  : option Contact.t :=
  snd <$> query_first (by_id_owner contact_id user) db.

(** A [Contact] built from the keys of [body.dict()] and [user.id], added,
    committed and refreshed.  Modelled from the spec: the column defaults of
    [src/database/models.py] are not part of the sources; the id is drawn
    from the primary-key sequence and both timestamps from the store's
    clock.  The model puts the new row at the end of the table; the store
    may place it elsewhere, and no statement below is about its place. *)
Definition create_contact (body : ContactModel.t) (user : User.t) (db : Session)
  : Contact.t * Session :=
  let contact :=
    {| Contact.id := next_id db;
       Contact.first_name := ContactModel.first_name body;
       Contact.last_name := ContactModel.last_name body;
       Contact.email := ContactModel.email body;
       Contact.phone := ContactModel.phone body;
       Contact.date_of_birth := ContactModel.date_of_birth body;
       Contact.created_at := clock db;
       Contact.updated_at := clock db;
       Contact.user_id := User.id user |} in
  (contact, {| rows := rows db ++ [contact];
               next_id := next_id db + 1;
               clock := clock db |}).

(** The five assignments of [update_contact].  Modelled from the spec: the
    column declarations of [src/database/models.py] are not part of the
    sources; [updated_at] is a timestamp kept by the store, which writes
    its clock into it when the row is flushed. *)
Definition assign_body (contact : Contact.t) (body : ContactModel.t) (stamp : Z)
  : Contact.t :=
  {| Contact.id := Contact.id contact;
     Contact.first_name := ContactModel.first_name body;
     Contact.last_name := ContactModel.last_name body;
     Contact.email := ContactModel.email body;
     Contact.phone := ContactModel.phone body;
     Contact.date_of_birth := ContactModel.date_of_birth body;
     Contact.created_at := Contact.created_at contact;
     Contact.updated_at := stamp;
     Contact.user_id := Contact.user_id contact |}.

Definition update_contact (contact_id : Z) (body : ContactModel.t) (user : User.t)
  (db : Session) : option Contact.t * Session :=
  match query_first (by_id_owner contact_id user) db with
  | Some (i, contact) =>
      let contact' := assign_body contact body (clock db) in
      (Some contact', {| rows := <[i := contact']> (rows db);
                         next_id := next_id db;
                         clock := clock db |})
  | None => (None, db)
  end.

Definition remove_contact (contact_id : Z) (user : User.t) (db : Session)
  : option Contact.t * Session :=
  match query_first (by_id_owner contact_id user) db with
  | Some (i, contact) =>
      (Some contact, {| rows := delete i (rows db);
                        next_id := next_id db;
                        clock := clock db |})
  | None => (None, db)
  end.

(** ** The window of the birthday selector, in the words of the spec *)

(** The date of birth re-anchored to the year of [today]. *)
Definition reanchor (today : datetime.date) (c : Contact.t) : result datetime.date :=
  datetime.replace_year (Contact.date_of_birth c) (datetime.year today).

(** The re-anchored birthday lies between today and today + 7 days. *)
Definition upcoming (today : datetime.date) (c : Contact.t) : Prop :=
  ∃ d, reanchor today c = Ok d ∧ 0 ≤ datetime.sub_days d today ≤ 7.

#[global] Instance upcoming_dec today c : Decision (upcoming today c).
Proof.
  unfold upcoming. destruct (reanchor today c) as [d|e].
  - destruct (decide (0 ≤ datetime.sub_days d today ≤ 7)) as [H|H].
    + left. by exists d.
    + right. intros (d' & [= <-] & ?). done.
  - right. by intros (d' & [=] & ?).
Defined.

(** Every contact of a page re-anchors to the year of [today]. *)
Definition reanchors (today : datetime.date) (page : list Contact.t) : Prop :=
  Forall (λ c, ∃ d, reanchor today c = Ok d) page.

(** The owner's contacts, in store order. *)
Definition contacts_of (user : User.t) (db : Session) : list Contact.t :=
  filter (λ c, Contact.user_id c = User.id user) (rows db).

(** The owner's contacts whose [field] equals [x] exactly, in store order. *)
Definition matching (field : Contact.t → string) (x : string) (user : User.t)
  (db : Session) : list Contact.t :=
  filter (λ c, field c = x) (contacts_of user db).

(** The page of the owner's contacts: [skip] rows are passed over and at
    most [limit] rows are taken. *)
Definition page_of (skip limit : Z) (user : User.t) (db : Session) : list Contact.t :=
  take (Z.to_nat limit) (drop (Z.to_nat skip) (contacts_of user db)).

(** The store invariant of the primary key: every id in the table was
    drawn from the sequence. *)
Definition ids_below_sequence (db : Session) : Prop :=
  Forall (λ c, Contact.id c < next_id db) (rows db).

(** One call of a writing operation of the repository, or the passing of
    time on the store's clock. *)
Inductive step : Session → Session → Prop :=
| step_create body user db :
    step db (create_contact body user db).2
| step_update contact_id body user db :
    step db (update_contact contact_id body user db).2
| step_remove contact_id user db :
    step db (remove_contact contact_id user db).2
| step_tick db t :
    step db (mk_session (rows db) (next_id db) t).

(** The sessions the repository can build from an empty table. *)
Definition reachable (db : Session) : Prop :=
  ∃ t, rtc step (mk_session [] 1 t) db.

(** ** Sample data *)

Module Sample.

Definition d (y m dd : Z) : datetime.date := datetime.mk_date y m dd.

Definition luffy : User.t := User.mk 1 "luffy" "strawhatcaptain@meta.ua" true.
Definition zoro : User.t := User.mk 2 "zoro" "strawhatswordsman@meta.ua" true.

Definition row (i : Z) (fn ln em : string) (dob : datetime.date) (owner : Z)
  : Contact.t :=
  Contact.mk i fn ln em "+3057218410" dob 100 100 owner.

Definition nami := row 1 "Nami" "Cat" "nami@meta.ua" (d 1994 5 5) 1.
Definition usopp := row 2 "Usopp" "Sniper" "usopp@meta.ua" (d 1990 5 12) 1.
Definition sanji := row 3 "Sanji" "Cook" "sanji@meta.ua" (d 1992 5 13) 1.
Definition robin := row 4 "Nami" "Cook" "robin@meta.ua" (d 1988 4 30) 1.
Definition chopper := row 5 "Nami" "Cat" "nami@meta.ua" (d 2000 2 29) 2.
Definition franky := row 6 "Franky" "Cyborg" "franky@meta.ua" (d 1986 1 2) 1.
Definition brook := row 7 "Brook" "Bones" "brook@meta.ua" (d 2000 2 29) 1.

Definition db : Session :=
  mk_session [nami; usopp; sanji; robin; chopper; franky] 7 200.

Definition db_leap : Session :=
  mk_session [nami; brook] 8 200.

Definition body : ContactModel.t :=
  ContactModel.mk "Jinbe" "Helmsman" "jinbe@meta.ua" "+380" (d 1978 4 2).

End Sample.

(** Born on 29 February. *)
Definition leap_day (c : Contact.t) : Prop :=
  datetime.month (Contact.date_of_birth c) = 2
  ∧ datetime.day (Contact.date_of_birth c) = 29.

(** The primary key: no two rows of the table share an id. *)
Definition unique_ids (db : Session) : Prop :=
  NoDup (Contact.id <$> rows db).

(** ** [src/routes/contacts.py] *)

Module routes.

(** What a path operation hands to the framework: the value it returns,
    the [HTTPException] it raises, or an exception of the repository that
    it lets through. *)
Inductive response (A : Type) : Type :=
| Return (a : A)
| HTTPException (status_code : Z) (detail : string)
| Propagate (e : exn).
Arguments Return {A} a.
Arguments HTTPException {A} status_code detail.
Arguments Propagate {A} e.

Definition HTTP_404_NOT_FOUND : Z := 404.

(** The dependencies [get_db] and [auth_service.get_current_user] are
    resolved by the framework; their values are the arguments [db] and
    [current_user]. *)
Definition get_contact_by_params (skip limit : Z)
  (first_name last_name email : option string) (db : Session)
  (current_user : User.t) : response (list Contact.t) :=
  match get_contacts skip limit first_name last_name email current_user db with
  | Ok contact =>
      match contact with
      | [] => HTTPException HTTP_404_NOT_FOUND
                "Contacts with requested parameters not found"
      | _ :: _ => Return contact
      end
  | Raise e => Propagate e
  end.

Definition get_birthdays (today : datetime.date) (skip limit : Z) (db : Session)
  (current_user : User.t) : response (list Contact.t) :=
  match get_contacts_birthdays today skip limit current_user db with
  | Ok contacts =>
      match contacts with
      | [] => HTTPException HTTP_404_NOT_FOUND
                "Contacts with birthdays for the next 7 days not found"
      | _ :: _ => Return contacts
      end
  | Raise e => Propagate e
  end.

Definition get_contact (contact_id : Z) (db : Session) (current_user : User.t)
  : response Contact.t :=
  match get_contact_by_id contact_id current_user db with
  | None => HTTPException HTTP_404_NOT_FOUND "Contact with requested id not found"
  | Some contact => Return contact
  end.

Definition create_contact (body : ContactModel.t) (db : Session)
  (current_user : User.t) : response Contact.t * Session :=
  let '(new_contact, db') := create_contact body current_user db in
  (Return new_contact, db').

Definition update_contact (body : ContactModel.t) (contact_id : Z) (db : Session)
  (current_user : User.t) : response Contact.t * Session :=
  match update_contact contact_id body current_user db with
  | (None, db') =>
      (HTTPException HTTP_404_NOT_FOUND "Contact with requested id not found", db')
  | (Some contact, db') => (Return contact, db')
  end.

Definition remove_tag (contact_id : Z) (db : Session) (current_user : User.t)
  : response Contact.t * Session :=
  match remove_contact contact_id current_user db with
  | (None, db') =>
      (HTTPException HTTP_404_NOT_FOUND "Contact with requested id not found", db')
  | (Some contact, db') => (Return contact, db')
  end.

End routes.

(** ** Auxiliary facts on the store operations *)

(** Closes the side conditions on a concrete window. *)
Ltac window := unfold BIGINT_MAX; lia.

Section store_facts.
Implicit Types (db : Session) (user : User.t) (c : Contact.t).
Implicit Types (q : list Contact.t) (p : Contact.t → bool).

Lemma elem_of_query_filter p db c :
  c ∈ query_filter p db ↔ p c = true ∧ c ∈ rows db.
Proof. unfold query_filter. by rewrite list_elem_of_filter. Qed.

Lemma elem_of_union q1 q2 c : c ∈ union q1 q2 ↔ c ∈ q1 ∨ c ∈ q2.
Proof. unfold union. by rewrite elem_of_remove_dups, elem_of_app. Qed.

Lemma NoDup_union q1 q2 : NoDup (union q1 q2).
Proof. apply NoDup_remove_dups. Qed.

Lemma offset_limit_Ok skip limit q :
  0 ≤ skip ≤ BIGINT_MAX → 0 ≤ limit ≤ BIGINT_MAX →
  offset_limit skip limit q = Ok (take (Z.to_nat limit) (drop (Z.to_nat skip) q)).
Proof.
  intros Hs Hl. unfold offset_limit.
  destruct (Z.ltb_spec skip 0); [lia|].
  destruct (Z.ltb_spec limit 0); [lia|].
  destruct (Z.ltb_spec BIGINT_MAX skip); [lia|].
  destruct (Z.ltb_spec BIGINT_MAX limit); [lia|]. done.
Qed.

Lemma offset_limit_inv skip limit q l :
  offset_limit skip limit q = Ok l →
  0 ≤ skip ≤ BIGINT_MAX ∧ 0 ≤ limit ≤ BIGINT_MAX
  ∧ l = take (Z.to_nat limit) (drop (Z.to_nat skip) q).
Proof.
  unfold offset_limit.
  destruct (Z.ltb_spec skip 0); [done|].
  destruct (Z.ltb_spec limit 0); [done|].
  destruct (Z.ltb_spec BIGINT_MAX skip); [done|].
  destruct (Z.ltb_spec BIGINT_MAX limit); [done|].
  intros [= <-]. auto.
Qed.

Lemma offset_limit_Raise skip limit q e :
  offset_limit skip limit q = Raise e →
  e = DataError
  ∧ (skip < 0 ∨ limit < 0 ∨ BIGINT_MAX < skip ∨ BIGINT_MAX < limit).
Proof.
  unfold offset_limit.
  destruct (Z.ltb_spec skip 0); [intros [= <-]; auto|].
  destruct (Z.ltb_spec limit 0); [intros [= <-]; auto|].
  destruct (Z.ltb_spec BIGINT_MAX skip); [intros [= <-]; auto|].
  destruct (Z.ltb_spec BIGINT_MAX limit); [intros [= <-]; auto|]. done.
Qed.

Lemma query_all_Ok params q :
  forallb bindable params = true → query_all params q = Ok q.
Proof. unfold query_all. by intros ->. Qed.

Lemma query_all_inv params q l : query_all params q = Ok l → l = q.
Proof. unfold query_all. destruct (forallb _ _); congruence. Qed.

Lemma bindable_Some s : has_nul s = false → bindable (Some s) = true.
Proof. simpl. by intros ->. Qed.

Lemma bindable_falsy o : truthy o = false → bindable o = true.
Proof. by destruct o as [[|a s]|]. Qed.

Lemma offset_limit_sublist skip limit q l :
  offset_limit skip limit q = Ok l → l `sublist_of` q.
Proof.
  intros (_ & _ & ->)%offset_limit_inv.
  etrans; [apply sublist_take | apply sublist_drop].
Qed.

Lemma by_owner_true user c :
  by_owner user c = true ↔ Contact.user_id c = User.id user.
Proof. unfold by_owner. apply Z.eqb_eq. Qed.

Lemma by_id_owner_true contact_id user c :
  by_id_owner contact_id user c = true ↔
  Contact.id c = contact_id ∧ Contact.user_id c = User.id user.
Proof. unfold by_id_owner. rewrite andb_true_iff, !Z.eqb_eq. done. Qed.

Lemma col_eq_Some v s : col_eq v (Some s) = true ↔ v = s.
Proof. simpl. apply bool_decide_eq_true. Qed.

Lemma by_first_name_true s user c :
  by_first_name (Some s) user c = true ↔
  Contact.first_name c = s ∧ Contact.user_id c = User.id user.
Proof. unfold by_first_name. by rewrite andb_true_iff, col_eq_Some, Z.eqb_eq. Qed.

Lemma by_last_name_true s user c :
  by_last_name (Some s) user c = true ↔
  Contact.last_name c = s ∧ Contact.user_id c = User.id user.
Proof. unfold by_last_name. by rewrite andb_true_iff, col_eq_Some, Z.eqb_eq. Qed.

Lemma by_email_true s user c :
  by_email (Some s) user c = true ↔
  Contact.email c = s ∧ Contact.user_id c = User.id user.
Proof. unfold by_email. by rewrite andb_true_iff, col_eq_Some, Z.eqb_eq. Qed.

Lemma truthy_Some s : s ≠ EmptyString → truthy (Some s) = true.
Proof. by destruct s. Qed.

(** Every clause of the repository carries the owner test. *)
Lemma by_first_name_owner o user c :
  by_first_name o user c = true → Contact.user_id c = User.id user.
Proof. unfold by_first_name. rewrite andb_true_iff, Z.eqb_eq. tauto. Qed.

Lemma by_last_name_owner o user c :
  by_last_name o user c = true → Contact.user_id c = User.id user.
Proof. unfold by_last_name. rewrite andb_true_iff, Z.eqb_eq. tauto. Qed.

Lemma by_email_owner o user c :
  by_email o user c = true → Contact.user_id c = User.id user.
Proof. unfold by_email. rewrite andb_true_iff, Z.eqb_eq. tauto. Qed.

Lemma query_filter_by_owner user db :
  query_filter (by_owner user) db = contacts_of user db.
Proof. apply list_filter_iff. intros c. apply by_owner_true. Qed.

Lemma query_filter_by_first_name s user db :
  query_filter (by_first_name (Some s) user) db = matching Contact.first_name s user db.
Proof.
  unfold matching, contacts_of. rewrite list_filter_filter.
  apply list_filter_iff. intros c. apply by_first_name_true.
Qed.

Lemma query_filter_by_last_name s user db :
  query_filter (by_last_name (Some s) user) db = matching Contact.last_name s user db.
Proof.
  unfold matching, contacts_of. rewrite list_filter_filter.
  apply list_filter_iff. intros c. apply by_last_name_true.
Qed.

Lemma query_filter_by_email s user db :
  query_filter (by_email (Some s) user) db = matching Contact.email s user db.
Proof.
  unfold matching, contacts_of. rewrite list_filter_filter.
  apply list_filter_iff. intros c. apply by_email_true.
Qed.

Lemma elem_of_contacts_of user db c :
  c ∈ contacts_of user db ↔ c ∈ rows db ∧ Contact.user_id c = User.id user.
Proof. unfold contacts_of. rewrite list_elem_of_filter. tauto. Qed.

Lemma elem_of_matching field x user db c :
  c ∈ matching field x user db ↔
  c ∈ rows db ∧ Contact.user_id c = User.id user ∧ field c = x.
Proof.
  unfold matching. rewrite list_elem_of_filter, elem_of_contacts_of. tauto.
Qed.

Lemma page_of_sublist skip limit user db :
  page_of skip limit user db `sublist_of` contacts_of user db.
Proof. unfold page_of. etrans; [apply sublist_take | apply sublist_drop]. Qed.

Lemma elem_of_page_of skip limit user db c :
  c ∈ page_of skip limit user db →
  c ∈ rows db ∧ Contact.user_id c = User.id user.
Proof.
  intros Hc. apply elem_of_contacts_of.
  eapply elem_of_sublist; [done | apply page_of_sublist].
Qed.

Lemma query_first_Some p db i c :
  query_first p db = Some (i, c) ↔
  rows db !! i = Some c ∧ p c = true ∧
  ∀ j y, rows db !! j = Some y → (j < i)%nat → p y ≠ true.
Proof. exact (list_find_Some (λ c, p c = true) (rows db) i c). Qed.

Lemma query_first_None p db :
  query_first p db = None ↔ ∀ c, c ∈ rows db → p c ≠ true.
Proof.
  unfold query_first.
  rewrite (list_find_None (λ c, p c = true) (rows db)), Forall_forall. done.
Qed.

End store_facts.

(** ** The loop of the birthday selector *)

Section birthdays.
Variable today : datetime.date.
Implicit Types (c : Contact.t) (cs acc l : list Contact.t).

Lemma window_test c d :
  reanchor today c = Ok d →
  (0 <=? datetime.sub_days d today) && (datetime.sub_days d today <=? 7) = true
  ↔ upcoming today c.
Proof.
  intros Hd. rewrite andb_true_iff, !Z.leb_le. unfold upcoming. split.
  - intros ?. by exists d.
  - intros (d' & Hd' & ?). congruence.
Qed.

Lemma birthdays_loop_Ok cs acc :
  reanchors today cs →
  birthdays_loop today cs acc = Ok (acc ++ filter (upcoming today) cs).
Proof.
  intros Hcs. revert acc.
  induction Hcs as [|c cs [d Hd] _ IH]; intros acc; simpl.
  - by rewrite app_nil_r.
  - unfold reanchor in Hd. rewrite Hd. simpl.
    rewrite filter_cons.
    destruct (decide (upcoming today c)) as [Hw|Hw].
    + apply (window_test c d Hd) in Hw. rewrite Hw, IH.
      by rewrite <- app_assoc.
    + destruct ((0 <=? datetime.sub_days d today)
                && (datetime.sub_days d today <=? 7)) eqn:Ht; [|apply IH].
      by apply (window_test c d Hd) in Ht.
Qed.

Lemma birthdays_loop_inv cs acc l :
  birthdays_loop today cs acc = Ok l →
  reanchors today cs ∧ l = acc ++ filter (upcoming today) cs.
Proof.
  revert acc. induction cs as [|c cs IH]; intros acc; simpl.
  - intros [= <-]. split; [constructor | by rewrite app_nil_r].
  - destruct (datetime.replace_year _ _) as [d|e] eqn:Hd; simpl; [|done].
    intros Hl.
    assert (reanchors today cs) as Hcs.
    { destruct ((0 <=? _) && _) in Hl; by apply IH in Hl as [? _]. }
    assert (reanchors today (c :: cs)) as Hall by (constructor; eauto).
    split; [done|].
    pose proof (birthdays_loop_Ok (c :: cs) acc Hall) as Hok. simpl in Hok.
    rewrite Hd in Hok. simpl in Hok. congruence.
Qed.

Lemma birthdays_loop_Raise cs acc e :
  birthdays_loop today cs acc = Raise e → e = ValueError ∧ ¬ reanchors today cs.
Proof.
  revert acc. induction cs as [|c cs IH]; intros acc; simpl; [done|].
  destruct (datetime.replace_year _ _) as [d|e'] eqn:Hd; simpl.
  - intros Hl.
    assert (e = ValueError ∧ ¬ reanchors today cs) as [-> Hn].
    { destruct ((0 <=? _) && _) in Hl; by apply IH in Hl. }
    split; [done|]. intros Hall. by inversion Hall.
  - intros [= <-]. split.
    + unfold datetime.replace_year in Hd.
      destruct (datetime.check_date_fields _ _ _); congruence.
    + intros Hall. inversion Hall as [|? ? [d' Hd'] _]; subst.
      unfold reanchor in Hd'. congruence.
Qed.

End birthdays.

(** ** The query engine *)

Section query_engine.
Implicit Types (db : Session) (user : User.t) (c : Contact.t).
Implicit Types (first_name last_name email : option string).

(** Whatever branch answers, the rows come from the table and carry the
    caller as owner. *)
Lemma get_contacts_owner skip limit first_name last_name email user db l c :
  get_contacts skip limit first_name last_name email user db = Ok l →
  c ∈ l → c ∈ rows db ∧ Contact.user_id c = User.id user.
Proof.
  unfold get_contacts.
  repeat match goal with
         | |- context [if ?b then _ else _] => destruct b
         end;
    try (intros ->%query_all_inv;
         rewrite ?elem_of_union, !elem_of_query_filter;
         intuition eauto using by_first_name_owner, by_last_name_owner,
           by_email_owner).
  intros Hl%offset_limit_sublist Hc.
  pose proof (elem_of_sublist _ _ _ Hc Hl) as Hin.
  apply elem_of_query_filter in Hin as [Hp ?].
  by apply by_owner_true in Hp.
Qed.

Lemma get_contact_by_id_Some contact_id user db c :
  get_contact_by_id contact_id user db = Some c →
  c ∈ rows db ∧ Contact.id c = contact_id ∧ Contact.user_id c = User.id user.
Proof.
  unfold get_contact_by_id. intros ([i c'] & Hf & Hc)%fmap_Some.
  simpl in Hc. subst c'.
  apply query_first_Some in Hf as (Hi & Hp & _).
  apply by_id_owner_true in Hp as [].
  eauto using list_elem_of_lookup_2.
Qed.

Lemma get_contact_by_id_None contact_id user db :
  get_contact_by_id contact_id user db = None ↔
  ∀ c, c ∈ rows db →
       ¬ (Contact.id c = contact_id ∧ Contact.user_id c = User.id user).
Proof.
  unfold get_contact_by_id. rewrite fmap_None, query_first_None.
  by setoid_rewrite by_id_owner_true.
Qed.

(** The selector is the loop run over the fetched page. *)
Lemma get_contacts_birthdays_page today skip limit user db :
  0 ≤ skip ≤ BIGINT_MAX → 0 ≤ limit ≤ BIGINT_MAX →
  get_contacts_birthdays today skip limit user db
  = birthdays_loop today (page_of skip limit user db) [].
Proof.
  intros Hs Hl. unfold get_contacts_birthdays.
  by rewrite offset_limit_Ok, query_filter_by_owner.
Qed.

Lemma get_contacts_birthdays_inv today skip limit user db l :
  get_contacts_birthdays today skip limit user db = Ok l →
  0 ≤ skip ≤ BIGINT_MAX ∧ 0 ≤ limit ≤ BIGINT_MAX
  ∧ reanchors today (page_of skip limit user db)
  ∧ l = filter (upcoming today) (page_of skip limit user db).
Proof.
  unfold get_contacts_birthdays.
  destruct (offset_limit _ _ _) as [page|e] eqn:Hp; simpl; [|done].
  apply offset_limit_inv in Hp as (Hs & Hl & ->).
  rewrite query_filter_by_owner.
  intros [? ->]%birthdays_loop_inv. done.
Qed.

Lemma get_contacts_birthdays_owner today skip limit user db l c :
  get_contacts_birthdays today skip limit user db = Ok l →
  c ∈ l → c ∈ rows db ∧ Contact.user_id c = User.id user.
Proof.
  intros (_ & _ & _ & ->)%get_contacts_birthdays_inv Hc.
  apply list_elem_of_filter in Hc as [_ Hc].
  by apply elem_of_page_of in Hc.
Qed.

End query_engine.

(** ** Owner scoping and the filter branches *)

(** C1: for two distinct owners, a contact whose owner reference is the
    first is never in a result computed for the second: not in the listing
    of [get_contacts] (whatever the filters and the window), not in the
    answer of [get_contact_by_id] (whatever the id asked for), and not in
    the list of [get_contacts_birthdays]. *)
Theorem owner_isolation (u1 u2 : User.t) (c : Contact.t) (db : Session)
    (skip limit contact_id : Z) (first_name last_name email : option string)
    (today : datetime.date) :
  User.id u1 ≠ User.id u2 →
  Contact.user_id c = User.id u1 →
  (∀ l, get_contacts skip limit first_name last_name email u2 db = Ok l → c ∉ l)
  ∧ get_contact_by_id contact_id u2 db ≠ Some c
  ∧ (∀ l, get_contacts_birthdays today skip limit u2 db = Ok l → c ∉ l).
Proof.
  intros Hne Hc. split_and!.
  - intros l Hl Hin.
    destruct (get_contacts_owner _ _ _ _ _ _ _ _ _ Hl Hin). congruence.
  - intros Hget. apply get_contact_by_id_Some in Hget as (_ & _ & ?). congruence.
  - intros l Hl Hin.
    destruct (get_contacts_birthdays_owner _ _ _ _ _ _ _ Hl Hin). congruence.
Qed.

Lemma owner_isolation_witness :
  (∀ l, get_contacts 0 10 (Some "Nami") (Some "Cat") (Some "nami@meta.ua")
          Sample.luffy Sample.db = Ok l → Sample.chopper ∉ l)
  ∧ get_contact_by_id 5 Sample.luffy Sample.db ≠ Some Sample.chopper
  ∧ (∀ l, get_contacts_birthdays (Sample.d 2024 2 25) 0 10 Sample.luffy Sample.db = Ok l →
          Sample.chopper ∉ l).
Proof.
  apply (owner_isolation Sample.zoro Sample.luffy Sample.chopper Sample.db).
  - vm_compute. discriminate.
  - reflexivity.
Defined.

(** C2: with three non-empty filters [x], [y], [z] that the driver can
    bind (no NUL character) the listing is the union, without repetition,
    of the owner's contacts whose first name is [x], those whose last name
    is [y] and those whose email is [z]: a contact is in the result
    exactly when it is in one of the three sets, and no contact occurs
    twice. *)
Theorem get_contacts_three_filters (skip limit : Z) (x y z : string)
    (user : User.t) (db : Session) :
  x ≠ EmptyString → y ≠ EmptyString → z ≠ EmptyString →
  has_nul x = false → has_nul y = false → has_nul z = false →
  ∃ l, get_contacts skip limit (Some x) (Some y) (Some z) user db = Ok l
       ∧ NoDup l
       ∧ ∀ c, c ∈ l ↔ c ∈ matching Contact.first_name x user db
                       ∨ c ∈ matching Contact.last_name y user db
                       ∨ c ∈ matching Contact.email z user db.
Proof.
  intros Hx Hy Hz Nx Ny Nz. unfold get_contacts.
  rewrite !truthy_Some by done. simpl.
  rewrite query_all_Ok by (simpl; by rewrite Nx, Ny, Nz).
  eexists. split_and!; [done | apply NoDup_union |].
  intros c. rewrite !elem_of_union.
  rewrite query_filter_by_first_name, query_filter_by_last_name,
    query_filter_by_email.
  tauto.
Qed.

Lemma get_contacts_three_filters_witness :
  ∃ l, get_contacts 0 10 (Some "Nami") (Some "Cook") (Some "nami@meta.ua")
         Sample.luffy Sample.db = Ok l
       ∧ NoDup l
       ∧ ∀ c, c ∈ l ↔ c ∈ matching Contact.first_name "Nami" Sample.luffy Sample.db
                       ∨ c ∈ matching Contact.last_name "Cook" Sample.luffy Sample.db
                       ∨ c ∈ matching Contact.email "nami@meta.ua" Sample.luffy Sample.db.
Proof.
  apply (get_contacts_three_filters 0 10 "Nami" "Cook" "nami@meta.ua"
           Sample.luffy Sample.db);
    [discriminate | discriminate | discriminate
     | reflexivity | reflexivity | reflexivity].
Defined.

(** The union on the sample table: Nami matches two filters and Robin two,
    each is listed once; Chopper has the same values under another owner. *)
Example three_filters_on_sample :
  get_contacts 0 10 (Some "Nami") (Some "Cook") (Some "nami@meta.ua")
    Sample.luffy Sample.db
  = Ok [Sample.sanji; Sample.robin; Sample.nami].
Proof. vm_compute. reflexivity. Qed.

(** C7: the window is applied only when no filter is active.  With exactly
    one non-empty filter (one the driver can bind: no NUL character) the
    listing is every contact of the owner whose field equals the filter,
    whatever [skip] and [limit] are; with no filter and a window that is
    not negative and fits the engine's [bigint], it is the owner's
    contacts in store order from offset [skip], at most [limit] of
    them. *)
Theorem get_contacts_window_only_unfiltered (user : User.t) (db : Session) :
  (∀ skip limit x last_name email,
     x ≠ EmptyString → has_nul x = false →
     truthy last_name = false → truthy email = false →
     get_contacts skip limit (Some x) last_name email user db
     = Ok (matching Contact.first_name x user db))
  ∧ (∀ skip limit first_name y email,
     truthy first_name = false → y ≠ EmptyString → has_nul y = false →
     truthy email = false →
     get_contacts skip limit first_name (Some y) email user db
     = Ok (matching Contact.last_name y user db))
  ∧ (∀ skip limit first_name last_name z,
     truthy first_name = false → truthy last_name = false →
     z ≠ EmptyString → has_nul z = false →
     get_contacts skip limit first_name last_name (Some z) user db
     = Ok (matching Contact.email z user db))
  ∧ (∀ skip limit first_name last_name email,
     truthy first_name = false → truthy last_name = false →
     truthy email = false →
     0 ≤ skip ≤ BIGINT_MAX → 0 ≤ limit ≤ BIGINT_MAX →
     get_contacts skip limit first_name last_name email user db
     = Ok (take (Z.to_nat limit) (drop (Z.to_nat skip) (contacts_of user db)))
     ∧ Z.of_nat (length (take (Z.to_nat limit)
                           (drop (Z.to_nat skip) (contacts_of user db)))) ≤ limit).
Proof.
  split_and!.
  - intros skip limit x ln em Hx Nx Hln Hem. unfold get_contacts.
    rewrite (truthy_Some x Hx), Hln, Hem. simpl.
    rewrite query_all_Ok by (simpl; by rewrite Nx).
    by rewrite query_filter_by_first_name.
  - intros skip limit fn y em Hfn Hy Ny Hem. unfold get_contacts.
    rewrite (truthy_Some y Hy), Hfn, Hem. simpl.
    rewrite query_all_Ok by (simpl; by rewrite Ny).
    by rewrite query_filter_by_last_name.
  - intros skip limit fn ln z Hfn Hln Hz Nz. unfold get_contacts.
    rewrite (truthy_Some z Hz), Hfn, Hln. simpl.
    rewrite query_all_Ok by (simpl; by rewrite Nz).
    by rewrite query_filter_by_email.
  - intros skip limit fn ln em Hfn Hln Hem Hs Hl. unfold get_contacts.
    rewrite Hfn, Hln, Hem. simpl.
    rewrite offset_limit_Ok, query_filter_by_owner by done.
    split; [done|]. rewrite length_take. lia.
Qed.

Lemma get_contacts_window_only_unfiltered_witness :
  get_contacts 1 2 (Some "Nami") None None Sample.luffy Sample.db
  = Ok [Sample.nami; Sample.robin]
  ∧ get_contacts 1 2 None (Some "Cook") (Some EmptyString) Sample.luffy Sample.db
  = Ok [Sample.sanji; Sample.robin]
  ∧ get_contacts 1 2 None None (Some "nami@meta.ua") Sample.luffy Sample.db
  = Ok [Sample.nami]
  ∧ get_contacts 1 2 None None None Sample.luffy Sample.db
  = Ok [Sample.usopp; Sample.sanji].
Proof.
  destruct (get_contacts_window_only_unfiltered Sample.luffy Sample.db)
    as (Hfirst & Hlast & Hemail & Hnone).
  split_and!.
  - rewrite (Hfirst 1 2 "Nami" None None); [reflexivity | discriminate | reflexivity ..].
  - rewrite (Hlast 1 2 None "Cook" (Some EmptyString));
      [reflexivity | reflexivity | discriminate | reflexivity | reflexivity].
  - rewrite (Hemail 1 2 None None "nami@meta.ua");
      [reflexivity | reflexivity | reflexivity | discriminate | reflexivity].
  - destruct (Hnone 1 2 None None None) as [-> _];
      [reflexivity | reflexivity | reflexivity | window | window | reflexivity].
Defined.

(** The two refusals of the store on the sample table: a row count that
    does not fit a [bigint], and a filter with a NUL character. *)
Example get_contacts_refusals_on_sample :
  get_contacts 0 (BIGINT_MAX + 1) None None None Sample.luffy Sample.db
  = Raise DataError
  ∧ get_contacts 0 10 (Some (String Ascii.zero "Nami")) None None
      Sample.luffy Sample.db
    = Raise ValueError.
Proof. vm_compute. done. Qed.

(** C8: an empty-string filter is a disabled filter.  In each of the three
    positions, calling [get_contacts] with the empty string gives the
    result of calling it with the filter absent, so the empty string is
    never compared with the rows. *)
Theorem get_contacts_empty_filter_absent (skip limit : Z) (a b : option string)
    (user : User.t) (db : Session) :
  get_contacts skip limit (Some EmptyString) a b user db
  = get_contacts skip limit None a b user db
  ∧ get_contacts skip limit a (Some EmptyString) b user db
    = get_contacts skip limit a None b user db
  ∧ get_contacts skip limit a b (Some EmptyString) user db
    = get_contacts skip limit a b None user db.
Proof.
  unfold get_contacts. simpl.
  split_and!; destruct (truthy a), (truthy b); reflexivity.
Qed.

(** A row whose first name is the empty string is not singled out by an
    empty filter: the listing is the plain page. *)
Example empty_filter_on_sample :
  let blank := Sample.row 9 EmptyString "Ghost" "ghost@meta.ua" (Sample.d 1990 1 1) 1 in
  let db := mk_session [Sample.nami; blank] 10 200 in
  get_contacts 0 10 (Some EmptyString) None None Sample.luffy db
  = Ok [Sample.nami; blank].
Proof. vm_compute. reflexivity. Qed.

(** ** The birthday selector *)

(** A date of 29 February has no counterpart in a year that is not leap:
    [replace] raises, and so does the selector as soon as such a contact
    is on the fetched page. *)
Lemma reanchor_leap_day today c :
  datetime.month (Contact.date_of_birth c) = 2 →
  datetime.day (Contact.date_of_birth c) = 29 →
  datetime.is_leap (datetime.year today) = false →
  reanchor today c = Raise ValueError.
Proof.
  intros Hm Hd Hleap. unfold reanchor, datetime.replace_year.
  unfold datetime.check_date_fields, datetime.days_in_month.
  rewrite Hm, Hd, Hleap. simpl. by rewrite !andb_false_r.
Qed.

Lemma get_contacts_birthdays_leap_day today skip limit user db c :
  0 ≤ skip ≤ BIGINT_MAX → 0 ≤ limit ≤ BIGINT_MAX →
  c ∈ page_of skip limit user db →
  datetime.month (Contact.date_of_birth c) = 2 →
  datetime.day (Contact.date_of_birth c) = 29 →
  datetime.is_leap (datetime.year today) = false →
  get_contacts_birthdays today skip limit user db = Raise ValueError.
Proof.
  intros Hs Hl Hc Hm Hd Hleap.
  destruct (get_contacts_birthdays today skip limit user db) as [l|e] eqn:Hres.
  - apply get_contacts_birthdays_inv in Hres as (_ & _ & Hall & _).
    unfold reanchors in Hall. rewrite Forall_forall in Hall.
    destruct (Hall c Hc) as [d' Hd'].
    rewrite (reanchor_leap_day today c Hm Hd Hleap) in Hd'. done.
  - rewrite get_contacts_birthdays_page in Hres by done.
    by apply birthdays_loop_Raise in Hres as [-> _].
Qed.

(** C3: the selector fetches the page first and filters it afterwards.
    For a window that is not negative and fits the engine's [bigint],
    when the dates of the page re-anchor to the current year the result
    is the page of the owner's
    contacts in store order, filtered by the window of 0 to 7 days after
    today; any list the selector returns is that filtered page, a
    subsequence of the page in its order; a contact of the page is kept
    exactly when its re-anchored birthday is 0 to 7 days after today, so
    differences 0 and 7 are kept and 8 is not. *)
Theorem get_contacts_birthdays_fetch_then_filter (today : datetime.date)
    (skip limit : Z) (user : User.t) (db : Session) :
  0 ≤ skip ≤ BIGINT_MAX → 0 ≤ limit ≤ BIGINT_MAX →
  (reanchors today (page_of skip limit user db) →
   get_contacts_birthdays today skip limit user db
   = Ok (filter (upcoming today) (page_of skip limit user db)))
  ∧ (∀ l, get_contacts_birthdays today skip limit user db = Ok l →
          l = filter (upcoming today) (page_of skip limit user db)
          ∧ l `sublist_of` page_of skip limit user db
          ∧ ∀ c d, c ∈ page_of skip limit user db →
                   reanchor today c = Ok d →
                   (c ∈ l ↔ 0 ≤ datetime.sub_days d today ≤ 7)
                   ∧ (datetime.sub_days d today = 0 → c ∈ l)
                   ∧ (datetime.sub_days d today = 7 → c ∈ l)
                   ∧ (datetime.sub_days d today = 8 → c ∉ l)).
Proof.
  intros Hs Hl. split.
  - intros Hall. rewrite get_contacts_birthdays_page by done.
    by rewrite birthdays_loop_Ok.
  - intros l (_ & _ & _ & ->)%get_contacts_birthdays_inv.
    split_and!; [done | apply sublist_filter |].
    intros c d Hc Hd.
    assert (c ∈ filter (upcoming today) (page_of skip limit user db)
            ↔ 0 ≤ datetime.sub_days d today ≤ 7) as Hiff.
    { rewrite list_elem_of_filter. unfold upcoming. split.
      - intros [(d' & Hd' & ?) _]. congruence.
      - intros ?. split; [by exists d | done]. }
    split_and!; [done | | |]; rewrite Hiff; lia.
Qed.

Lemma get_contacts_birthdays_fetch_then_filter_witness :
  get_contacts_birthdays (Sample.d 2024 5 5) 0 10 Sample.luffy Sample.db
  = Ok [Sample.nami; Sample.usopp]
  ∧ get_contacts_birthdays (Sample.d 2024 5 12) 0 1 Sample.luffy Sample.db
    = Ok [].
Proof.
  split.
  - pose proof (get_contacts_birthdays_fetch_then_filter (Sample.d 2024 5 5) 0 10
                  Sample.luffy Sample.db ltac:(window) ltac:(window)) as [Hpage _].
    rewrite Hpage; [reflexivity|].
    vm_compute. repeat (constructor; [eexists; reflexivity|]). constructor.
  - pose proof (get_contacts_birthdays_fetch_then_filter (Sample.d 2024 5 12) 0 1
                  Sample.luffy Sample.db ltac:(window) ltac:(window)) as [Hpage _].
    rewrite Hpage; [reflexivity|].
    vm_compute. repeat (constructor; [eexists; reflexivity|]). constructor.
Defined.

(** The dates of the spec's example, with today = 2024-05-05: 5 May is at
    difference 0 and 12 May at 7 (kept), 13 May at 8 and 30 April at -5
    (dropped). *)
Example birthday_window_sample :
  let today := Sample.d 2024 5 5 in
  datetime.sub_days (Sample.d 2024 5 5) today = 0
  ∧ datetime.sub_days (Sample.d 2024 5 12) today = 7
  ∧ datetime.sub_days (Sample.d 2024 5 13) today = 8
  ∧ datetime.sub_days (Sample.d 2024 4 30) today = -5
  ∧ get_contacts_birthdays today 0 10 Sample.luffy
      (mk_session [Sample.nami; Sample.usopp; Sample.sanji; Sample.robin] 5 200)
    = Ok [Sample.nami; Sample.usopp].
Proof. vm_compute. done. Qed.

(** C5: a contact whose birthday, re-anchored to the current year, falls
    strictly before today is left out by the selector, also when the
    occurrence of next year is within 7 days of today (29 December and
    2 January): no returned list contains it, and for a window that is not
    negative and fits the engine's [bigint] and a page whose dates
    re-anchor, the selector does return a list. *)
Theorem get_contacts_birthdays_past_excluded (today : datetime.date)
    (skip limit : Z) (user : User.t) (db : Session) (c : Contact.t)
    (d : datetime.date) :
  reanchor today c = Ok d →
  datetime.toordinal d < datetime.toordinal today →
  (∀ l, get_contacts_birthdays today skip limit user db = Ok l → c ∉ l)
  ∧ (0 ≤ skip ≤ BIGINT_MAX → 0 ≤ limit ≤ BIGINT_MAX → reanchors today (page_of skip limit user db) →
     ∃ l, get_contacts_birthdays today skip limit user db = Ok l ∧ c ∉ l).
Proof.
  intros Hd Hlt.
  assert (¬ upcoming today c) as Hout.
  { intros (d' & Hd' & Hw). unfold datetime.sub_days in Hw.
    assert (d' = d) as -> by congruence. lia. }
  assert (c ∉ filter (upcoming today) (page_of skip limit user db)) as Hnot.
  { rewrite list_elem_of_filter. tauto. }
  split.
  - by intros l (_ & _ & _ & ->)%get_contacts_birthdays_inv.
  - intros Hs Hl Hall. eexists. split; [|exact Hnot].
    rewrite get_contacts_birthdays_page by done. by rewrite birthdays_loop_Ok.
Qed.

Lemma get_contacts_birthdays_past_excluded_witness :
  let today := Sample.d 2023 12 29 in
  Sample.franky ∈ page_of 0 10 Sample.luffy Sample.db
  ∧ datetime.sub_days (Sample.d 2024 1 2) today = 4
  ∧ (∀ l, get_contacts_birthdays today 0 10 Sample.luffy Sample.db = Ok l →
          Sample.franky ∉ l)
  ∧ ∃ l, get_contacts_birthdays today 0 10 Sample.luffy Sample.db = Ok l
         ∧ Sample.franky ∉ l.
Proof.
  intros today.
  destruct (get_contacts_birthdays_past_excluded today 0 10 Sample.luffy
              Sample.db Sample.franky (Sample.d 2023 1 2)) as [Hnever Hret].
  - reflexivity.
  - vm_compute. reflexivity.
  - split_and!.
    + vm_compute. do 4 right. left.
    + reflexivity.
    + exact Hnever.
    + apply Hret; [window | window |].
      vm_compute. repeat (constructor; [eexists; reflexivity|]). constructor.
Defined.

(** The year boundary on the sample table: on 29 December nobody is listed,
    although the 2 January birthday is four days away. *)
Example get_contacts_birthdays_year_boundary :
  get_contacts_birthdays (Sample.d 2023 12 29) 0 10 Sample.luffy Sample.db = Ok [].
Proof. vm_compute. reflexivity. Qed.

(** C6: a contact born on 29 February is on the page and the current year,
    2023, is not leap: the selector raises [ValueError] where a fallback
    date and a normal return are required. *)
Theorem get_contacts_birthdays_leap_day_raises :
  Sample.brook ∈ page_of 0 10 Sample.luffy Sample.db_leap
  ∧ Contact.date_of_birth Sample.brook = datetime.mk_date 2000 2 29
  ∧ datetime.is_leap 2023 = false
  ∧ get_contacts_birthdays (Sample.d 2023 2 25) 0 10 Sample.luffy Sample.db_leap
    = Raise ValueError.
Proof.
  split_and!; [|reflexivity..].
  vm_compute. right. left.
Qed.

(** ** Single-row operations *)

Section crud.
Implicit Types (db : Session) (user : User.t) (c contact : Contact.t).
Implicit Types (body : ContactModel.t).

Lemma query_first_absent contact_id user db :
  (∀ c, c ∈ rows db →
        ¬ (Contact.id c = contact_id ∧ Contact.user_id c = User.id user)) →
  query_first (by_id_owner contact_id user) db = None.
Proof.
  intros Habs. apply query_first_None. intros c Hc Hp.
  apply by_id_owner_true in Hp. by apply (Habs c).
Qed.

(** The sequence invariant holds of the empty table and is kept by the
    three writing operations. *)
Lemma ids_below_sequence_empty n t : ids_below_sequence (mk_session [] n t).
Proof. constructor. Qed.

Lemma create_contact_ids body user db :
  ids_below_sequence db → ids_below_sequence (create_contact body user db).2.
Proof.
  unfold ids_below_sequence. simpl. intros Hinv.
  apply Forall_app. split.
  - eapply Forall_impl; [done|]. simpl. intros; lia.
  - repeat constructor. simpl. lia.
Qed.

Lemma update_contact_ids contact_id body user db :
  ids_below_sequence db →
  ids_below_sequence (update_contact contact_id body user db).2.
Proof.
  unfold ids_below_sequence, update_contact. intros Hinv.
  destruct (query_first _ _) as [[i contact]|] eqn:Hf; simpl; [|done].
  apply query_first_Some in Hf as (Hi & _ & _).
  apply Forall_insert; [done|]. simpl.
  by apply (Forall_lookup_1 _ _ _ _ Hinv Hi).
Qed.

Lemma remove_contact_ids contact_id user db :
  ids_below_sequence db →
  ids_below_sequence (remove_contact contact_id user db).2.
Proof.
  unfold ids_below_sequence, remove_contact. intros Hinv.
  destruct (query_first _ _) as [[i contact]|]; simpl; [|done].
  by apply Forall_delete.
Qed.

Lemma step_ids db db' :
  step db db' → ids_below_sequence db → ids_below_sequence db'.
Proof.
  destruct 1; eauto using create_contact_ids, update_contact_ids,
    remove_contact_ids.
Qed.

Lemma reachable_ids db : reachable db → ids_below_sequence db.
Proof.
  intros [t Hsteps].
  assert (ids_below_sequence (mk_session [] 1 t)) as Hinit
    by apply ids_below_sequence_empty.
  induction Hsteps; eauto using step_ids.
Qed.

End crud.

(** C4: when no row has both the id and the owner asked for,
    [update_contact] and [remove_contact] answer [None] without raising
    and hand back the very same session: no field is written and no row is
    removed, so every later read sees the table as it was. *)
Theorem update_remove_absent_noop (contact_id : Z) (body : ContactModel.t)
    (user : User.t) (db : Session) :
  (∀ c, c ∈ rows db →
        ¬ (Contact.id c = contact_id ∧ Contact.user_id c = User.id user)) →
  update_contact contact_id body user db = (None, db)
  ∧ remove_contact contact_id user db = (None, db).
Proof.
  intros Habs. unfold update_contact, remove_contact.
  by rewrite (query_first_absent _ _ _ Habs).
Qed.

Lemma update_remove_absent_noop_witness :
  update_contact 5 Sample.body Sample.luffy Sample.db = (None, Sample.db)
  ∧ remove_contact 5 Sample.luffy Sample.db = (None, Sample.db).
Proof.
  apply (update_remove_absent_noop 5 Sample.body Sample.luffy Sample.db).
  intros c Hc [Hid Hown]. vm_compute in Hc.
  repeat (apply elem_of_cons in Hc as [->|Hc]; [done|]).
  by apply elem_of_nil in Hc.
Defined.





(** ** Further properties of the repository *)

Section rows_of_a_match.
Implicit Types (db : Session) (user : User.t) (c contact : Contact.t).
Implicit Types (p : Contact.t → bool) (l : list Contact.t).

(** A successful [.first()] splits the table around the row it loads. *)
Lemma query_first_split p db i c :
  query_first p db = Some (i, c) →
  ∃ l1 l2, rows db = l1 ++ c :: l2 ∧ i = length l1 ∧ p c = true
           ∧ Forall (λ y, p y ≠ true) l1.
Proof.
  intros (Hi & Hp & Hleast)%query_first_Some.
  destruct (list_elem_of_split_length _ _ _ Hi) as (l1 & l2 & Hrows & ->).
  exists l1, l2. split_and!; [done..|].
  apply Forall_lookup. intros j y Hj.
  apply (Hleast j y).
  - rewrite Hrows. by apply lookup_app_l_Some.
  - by eapply lookup_lt_Some.
Qed.

Lemma query_first_middle p l1 c l2 n t :
  Forall (λ y, p y ≠ true) l1 → p c = true →
  query_first p (mk_session (l1 ++ c :: l2) n t) = Some (length l1, c).
Proof.
  intros Hl1 Hp. apply query_first_Some. simpl. split_and!.
  - by apply list_lookup_middle.
  - done.
  - intros j y Hj Hlt. rewrite lookup_app_l in Hj by done.
    by apply (Forall_lookup_1 _ _ _ _ Hl1 Hj).
Qed.

Lemma query_first_head_filter p db :
  snd <$> query_first p db = head (filter (λ c, p c = true) (rows db)).
Proof.
  unfold query_first. induction (rows db) as [|y l IH]; [done|].
  rewrite filter_cons. simpl. destruct (decide (p y = true)); [done|].
  rewrite <- IH. by destruct (list_find _ l) as [[]|].
Qed.

Lemma update_contact_shape contact_id body user db c' db' :
  update_contact contact_id body user db = (Some c', db') →
  ∃ l1 contact l2,
    rows db = l1 ++ contact :: l2
    ∧ db' = mk_session (l1 ++ c' :: l2) (next_id db) (clock db)
    ∧ c' = assign_body contact body (clock db)
    ∧ by_id_owner contact_id user contact = true
    ∧ Forall (λ y, by_id_owner contact_id user y ≠ true) l1.
Proof.
  unfold update_contact.
  destruct (query_first _ _) as [[i contact]|] eqn:Hf; [|done].
  intros [= <- <-].
  apply query_first_split in Hf as (l1 & l2 & Hrows & -> & Hp & Hl1).
  exists l1, contact, l2. split_and!; try done.
  rewrite Hrows. f_equal.
  rewrite insert_app_r_alt, Nat.sub_diag by done. done.
Qed.

Lemma remove_contact_shape contact_id user db c db' :
  remove_contact contact_id user db = (Some c, db') →
  ∃ l1 l2,
    rows db = l1 ++ c :: l2
    ∧ db' = mk_session (l1 ++ l2) (next_id db) (clock db)
    ∧ by_id_owner contact_id user c = true
    ∧ Forall (λ y, by_id_owner contact_id user y ≠ true) l1.
Proof.
  unfold remove_contact.
  destruct (query_first _ _) as [[i contact]|] eqn:Hf; [|done].
  intros [= <- <-].
  apply query_first_split in Hf as (l1 & l2 & Hrows & -> & Hp & Hl1).
  exists l1, l2. split_and!; try done.
  rewrite Hrows. f_equal. apply delete_middle.
Qed.

(** The three clauses with a field test select among the owner's rows. *)
Lemma query_filter_of_contacts_of (test : Contact.t → bool) user db :
  query_filter (λ c, test c && (Contact.user_id c =? User.id user)) db
  = filter (λ c, test c = true) (contacts_of user db).
Proof.
  unfold query_filter, contacts_of. rewrite list_filter_filter.
  apply list_filter_iff. intros c. by rewrite andb_true_iff, Z.eqb_eq.
Qed.

(** Every read of the repository looks at the owner's rows only. *)
Lemma get_contacts_of_contacts_of skip limit first_name last_name email user db1 db2 :
  contacts_of user db1 = contacts_of user db2 →
  get_contacts skip limit first_name last_name email user db1
  = get_contacts skip limit first_name last_name email user db2.
Proof.
  intros Heq. unfold get_contacts, by_first_name, by_last_name, by_email.
  rewrite !(query_filter_of_contacts_of _ user db1).
  rewrite !(query_filter_of_contacts_of _ user db2).
  by rewrite !query_filter_by_owner, Heq.
Qed.

Lemma get_contacts_birthdays_of_contacts_of today skip limit user db1 db2 :
  contacts_of user db1 = contacts_of user db2 →
  get_contacts_birthdays today skip limit user db1
  = get_contacts_birthdays today skip limit user db2.
Proof.
  intros Heq. unfold get_contacts_birthdays.
  by rewrite !query_filter_by_owner, Heq.
Qed.

Lemma get_contact_by_id_of_contacts_of contact_id user db1 db2 :
  contacts_of user db1 = contacts_of user db2 →
  get_contact_by_id contact_id user db1 = get_contact_by_id contact_id user db2.
Proof.
  intros Heq. unfold get_contact_by_id.
  rewrite !query_first_head_filter.
  pose proof (query_filter_of_contacts_of (λ c, Contact.id c =? contact_id) user)
    as Hview.
  unfold query_filter, by_id_owner in *. by rewrite !Hview, Heq.
Qed.

(** A write on behalf of [user] leaves the rows of any other owner as
    they were. *)
Lemma create_contact_contacts_of_other body user other db :
  User.id other ≠ User.id user →
  contacts_of other (create_contact body user db).2 = contacts_of other db.
Proof.
  intros Hne. unfold contacts_of. simpl.
  rewrite filter_app, filter_cons_False, filter_nil, app_nil_r; [done|].
  simpl. congruence.
Qed.

Lemma update_contact_contacts_of_other contact_id body user other db :
  User.id other ≠ User.id user →
  contacts_of other (update_contact contact_id body user db).2 = contacts_of other db.
Proof.
  intros Hne.
  destruct (update_contact contact_id body user db) as [[c'|] db'] eqn:Hup.
  - apply update_contact_shape in Hup
      as (l1 & contact & l2 & Hrows & -> & -> & Hp & _).
    apply by_id_owner_true in Hp as [_ Hown].
    unfold contacts_of. simpl. rewrite Hrows, !filter_app.
    rewrite !filter_cons_False; [done | |]; simpl; congruence.
  - unfold update_contact in Hup.
    destruct (query_first _ _) as [[i contact]|]; by simplify_eq.
Qed.

Lemma remove_contact_contacts_of_other contact_id user other db :
  User.id other ≠ User.id user →
  contacts_of other (remove_contact contact_id user db).2 = contacts_of other db.
Proof.
  intros Hne.
  destruct (remove_contact contact_id user db) as [[c|] db'] eqn:Hrm.
  - apply remove_contact_shape in Hrm as (l1 & l2 & Hrows & -> & Hp & _).
    apply by_id_owner_true in Hp as [_ Hown].
    unfold contacts_of. simpl. rewrite Hrows, !filter_app.
    rewrite filter_cons_False; [done|]. congruence.
  - unfold remove_contact in Hrm.
    destruct (query_first _ _) as [[i contact]|]; by simplify_eq.
Qed.

End rows_of_a_match.

(** X1: with exactly two non-empty filters that the driver can bind (no
    NUL character) the listing is the union, without repetition, of the
    two corresponding sets of the owner's contacts, whatever the window;
    the third argument may be absent or empty. *)
Theorem get_contacts_two_filters (skip limit : Z) (x y : string)
    (o : option string) (user : User.t) (db : Session) :
  x ≠ EmptyString → y ≠ EmptyString → truthy o = false →
  has_nul x = false → has_nul y = false →
  (∃ l, get_contacts skip limit (Some x) (Some y) o user db = Ok l
        ∧ NoDup l
        ∧ ∀ c, c ∈ l ↔ c ∈ matching Contact.first_name x user db
                        ∨ c ∈ matching Contact.last_name y user db)
  ∧ (∃ l, get_contacts skip limit (Some x) o (Some y) user db = Ok l
          ∧ NoDup l
          ∧ ∀ c, c ∈ l ↔ c ∈ matching Contact.first_name x user db
                          ∨ c ∈ matching Contact.email y user db)
  ∧ (∃ l, get_contacts skip limit o (Some x) (Some y) user db = Ok l
          ∧ NoDup l
          ∧ ∀ c, c ∈ l ↔ c ∈ matching Contact.last_name x user db
                          ∨ c ∈ matching Contact.email y user db).
Proof.
  intros Hx Hy Ho Nx Ny. unfold get_contacts.
  rewrite !(truthy_Some x Hx), !(truthy_Some y Hy), Ho. simpl.
  rewrite !query_all_Ok by (simpl; by rewrite Nx, Ny).
  split_and!; eexists; (split_and!; [done | apply NoDup_union |]);
    intros c; rewrite elem_of_union;
    rewrite ?query_filter_by_first_name, ?query_filter_by_last_name,
      ?query_filter_by_email; done.
Qed.

Lemma get_contacts_two_filters_witness :
  (∃ l, get_contacts 3 1 (Some "Usopp") (Some "Cook") None Sample.luffy Sample.db
        = Ok l
        ∧ NoDup l
        ∧ ∀ c, c ∈ l ↔ c ∈ matching Contact.first_name "Usopp" Sample.luffy Sample.db
                        ∨ c ∈ matching Contact.last_name "Cook" Sample.luffy Sample.db)
  ∧ (∃ l, get_contacts 3 1 (Some "Usopp") None (Some "Cook") Sample.luffy Sample.db
          = Ok l
          ∧ NoDup l
          ∧ ∀ c, c ∈ l ↔ c ∈ matching Contact.first_name "Usopp" Sample.luffy Sample.db
                          ∨ c ∈ matching Contact.email "Cook" Sample.luffy Sample.db)
  ∧ (∃ l, get_contacts 3 1 None (Some "Usopp") (Some "Cook") Sample.luffy Sample.db
          = Ok l
          ∧ NoDup l
          ∧ ∀ c, c ∈ l ↔ c ∈ matching Contact.last_name "Usopp" Sample.luffy Sample.db
                          ∨ c ∈ matching Contact.email "Cook" Sample.luffy Sample.db).
Proof.
  apply (get_contacts_two_filters 3 1 "Usopp" "Cook" None Sample.luffy Sample.db);
    [discriminate | discriminate | reflexivity | reflexivity | reflexivity].
Defined.

(** Two filters on the sample table, with a window that would select
    nothing: the three matching rows are all listed. *)
Example two_filters_on_sample :
  get_contacts 3 1 (Some "Usopp") (Some "Cook") None Sample.luffy Sample.db
  = Ok [Sample.usopp; Sample.sanji; Sample.robin].
Proof. vm_compute. reflexivity. Qed.

(** X2: a write made for one user is invisible to every other user.
    After [create_contact], [update_contact] or [remove_contact] called
    with [user], the rows of another owner are the same list as before,
    and each read of the repository made for that owner gives the answer
    it gave before. *)
Theorem writes_invisible_to_other_owners (body : ContactModel.t)
    (contact_id : Z) (user other : User.t) (db db' : Session) :
  User.id other ≠ User.id user →
  db' = (create_contact body user db).2
  ∨ db' = (update_contact contact_id body user db).2
  ∨ db' = (remove_contact contact_id user db).2 →
  contacts_of other db' = contacts_of other db
  ∧ (∀ skip limit first_name last_name email,
       get_contacts skip limit first_name last_name email other db'
       = get_contacts skip limit first_name last_name email other db)
  ∧ (∀ today skip limit,
       get_contacts_birthdays today skip limit other db'
       = get_contacts_birthdays today skip limit other db)
  ∧ (∀ cid, get_contact_by_id cid other db' = get_contact_by_id cid other db).
Proof.
  intros Hne Hdb'.
  assert (contacts_of other db' = contacts_of other db) as Hsame.
  { destruct Hdb' as [-> | [-> | ->]];
      eauto using create_contact_contacts_of_other,
        update_contact_contacts_of_other, remove_contact_contacts_of_other. }
  split_and!; [done | intros .. ];
    eauto using get_contacts_of_contacts_of,
      get_contacts_birthdays_of_contacts_of, get_contact_by_id_of_contacts_of.
Qed.

Lemma writes_invisible_to_other_owners_witness :
  let db' := (remove_contact 5 Sample.zoro Sample.db).2 in
  rows db' ≠ rows Sample.db
  ∧ contacts_of Sample.luffy db' = contacts_of Sample.luffy Sample.db
  ∧ (∀ cid, get_contact_by_id cid Sample.luffy db'
            = get_contact_by_id cid Sample.luffy Sample.db).
Proof.
  intros db'.
  destruct (writes_invisible_to_other_owners Sample.body 5 Sample.zoro
              Sample.luffy Sample.db db') as (Hrows & _ & _ & Hid).
  - vm_compute. discriminate.
  - right. right. reflexivity.
  - split_and!; [vm_compute; discriminate | exact Hrows | exact Hid].
Defined.

(** X3: an update that finds its row can be read back: [get_contact_by_id]
    on the same id and owner returns the contact [update_contact]
    returned, and repeating the update with the same body changes
    nothing. *)
Theorem update_then_get_by_id (contact_id : Z) (body : ContactModel.t)
    (user : User.t) (db db' : Session) (c' : Contact.t) :
  update_contact contact_id body user db = (Some c', db') →
  get_contact_by_id contact_id user db' = Some c'
  ∧ update_contact contact_id body user db' = (Some c', db').
Proof.
  intros (l1 & contact & l2 & Hrows & -> & -> & Hp & Hl1)%update_contact_shape.
  assert (by_id_owner contact_id user (assign_body contact body (clock db)) = true)
    as Hp' by exact Hp.
  split.
  - unfold get_contact_by_id. by rewrite query_first_middle.
  - unfold update_contact. rewrite query_first_middle by done. simpl.
    rewrite insert_app_r_alt, Nat.sub_diag by done. done.
Qed.

Lemma update_then_get_by_id_witness :
  ∃ c' db', update_contact 2 Sample.body Sample.luffy Sample.db = (Some c', db')
            ∧ get_contact_by_id 2 Sample.luffy db' = Some c'
            ∧ update_contact 2 Sample.body Sample.luffy db' = (Some c', db').
Proof.
  eexists _, _. split; [vm_compute; reflexivity|].
  apply (update_then_get_by_id 2 Sample.body Sample.luffy Sample.db).
  vm_compute. reflexivity.
Defined.

(** X4: a removal that finds its row returns the row that a read by the
    same id and owner returned just before, and takes exactly that one
    row out of the table: the rows before and after it stay, in their
    order, and the primary-key sequence is not moved. *)
Theorem remove_contact_removes_one_row (contact_id : Z) (user : User.t)
    (db db' : Session) (c : Contact.t) :
  remove_contact contact_id user db = (Some c, db') →
  get_contact_by_id contact_id user db = Some c
  ∧ Contact.id c = contact_id
  ∧ Contact.user_id c = User.id user
  ∧ next_id db' = next_id db
  ∧ ∃ l1 l2, rows db = l1 ++ c :: l2 ∧ rows db' = l1 ++ l2.
Proof.
  intros Hrm.
  assert (get_contact_by_id contact_id user db = Some c) as Hget.
  { unfold get_contact_by_id, remove_contact in *.
    destruct (query_first _ _) as [[i x]|]; by simplify_eq. }
  apply remove_contact_shape in Hrm as (l1 & l2 & Hrows & -> & Hp & _).
  apply by_id_owner_true in Hp as [? ?].
  split_and!; try done. by exists l1, l2.
Qed.

Lemma remove_contact_removes_one_row_witness :
  let db' := (remove_contact 3 Sample.luffy Sample.db).2 in
  get_contact_by_id 3 Sample.luffy Sample.db = Some Sample.sanji
  ∧ Contact.id Sample.sanji = 3
  ∧ Contact.user_id Sample.sanji = User.id Sample.luffy
  ∧ next_id db' = next_id Sample.db
  ∧ ∃ l1 l2, rows Sample.db = l1 ++ Sample.sanji :: l2 ∧ rows db' = l1 ++ l2.
Proof.
  intros db'.
  apply (remove_contact_removes_one_row 3 Sample.luffy Sample.db db' Sample.sanji).
  vm_compute. reflexivity.
Defined.

(** ** The primary key *)

Section primary_key.
Implicit Types (db : Session) (user : User.t) (c : Contact.t).

Lemma NoDup_fmap_eq {A B} (f : A → B) (l : list A) x y :
  NoDup (f <$> l) → x ∈ l → y ∈ l → f x = f y → x = y.
Proof.
  induction l as [|a l IH]; intros Hnd Hx Hy Heq; [by apply elem_of_nil in Hx|].
  rewrite fmap_cons in Hnd. apply NoDup_cons in Hnd as [Hnotin Hnd].
  apply elem_of_cons in Hx as [->|Hx]; apply elem_of_cons in Hy as [->|Hy].
  - done.
  - destruct Hnotin. rewrite Heq. by apply list_elem_of_fmap_2.
  - destruct Hnotin. rewrite <- Heq. by apply list_elem_of_fmap_2.
  - by apply IH.
Qed.

Lemma unique_ids_eq db c1 c2 :
  unique_ids db → c1 ∈ rows db → c2 ∈ rows db →
  Contact.id c1 = Contact.id c2 → c1 = c2.
Proof. apply NoDup_fmap_eq. Qed.

Lemma create_contact_unique_ids body user db :
  ids_below_sequence db → unique_ids db →
  unique_ids (create_contact body user db).2.
Proof.
  unfold unique_ids, ids_below_sequence. simpl. intros Hbelow Hnd.
  rewrite fmap_app. apply NoDup_app. split_and!; [done | | apply NoDup_singleton].
  intros i (c & -> & Hc)%list_elem_of_fmap Hin.
  apply list_elem_of_singleton in Hin. simpl in Hin.
  rewrite Forall_forall in Hbelow. specialize (Hbelow c Hc). lia.
Qed.

Lemma update_contact_unique_ids contact_id body user db :
  unique_ids db → unique_ids (update_contact contact_id body user db).2.
Proof.
  intros Hnd.
  destruct (update_contact contact_id body user db) as [[c'|] db'] eqn:Hup.
  - apply update_contact_shape in Hup
      as (l1 & contact & l2 & Hrows & -> & -> & _ & _).
    unfold unique_ids in *. simpl. rewrite Hrows in Hnd.
    rewrite fmap_app, fmap_cons in Hnd. by rewrite fmap_app, fmap_cons.
  - unfold update_contact in Hup.
    destruct (query_first _ _) as [[i contact]|]; by simplify_eq.
Qed.

Lemma remove_contact_unique_ids contact_id user db :
  unique_ids db → unique_ids (remove_contact contact_id user db).2.
Proof.
  intros Hnd.
  destruct (remove_contact contact_id user db) as [[c|] db'] eqn:Hrm.
  - apply remove_contact_shape in Hrm as (l1 & l2 & Hrows & -> & _ & _).
    unfold unique_ids in *. simpl. rewrite Hrows in Hnd.
    rewrite fmap_app, fmap_cons in Hnd. rewrite fmap_app.
    eapply sublist_NoDup; [exact Hnd|].
    apply sublist_app; [done | by apply sublist_cons].
  - unfold remove_contact in Hrm.
    destruct (query_first _ _) as [[i contact]|]; by simplify_eq.
Qed.

Lemma step_keys db db' :
  step db db' →
  ids_below_sequence db ∧ unique_ids db →
  ids_below_sequence db' ∧ unique_ids db'.
Proof.
  intros Hstep [Hbelow Hnd]. split; [by eapply step_ids|].
  destruct Hstep; eauto using create_contact_unique_ids,
    update_contact_unique_ids, remove_contact_unique_ids.
Qed.

Lemma reachable_keys db :
  reachable db → ids_below_sequence db ∧ unique_ids db.
Proof.
  intros [t Hsteps].
  assert (ids_below_sequence (mk_session [] 1 t)
          ∧ unique_ids (mk_session [] 1 t)) as Hinit.
  { split; [apply ids_below_sequence_empty | apply NoDup_nil_2]. }
  induction Hsteps; eauto using step_keys.
Qed.

(** With unique ids, the row of an id is found wherever it stands. *)
Lemma get_contact_by_id_unique contact_id user db c :
  unique_ids db →
  get_contact_by_id contact_id user db = Some c ↔
  c ∈ rows db ∧ Contact.id c = contact_id ∧ Contact.user_id c = User.id user.
Proof.
  intros Hnd. split; [apply get_contact_by_id_Some|].
  intros (Hc & Hid & Hown).
  destruct (get_contact_by_id contact_id user db) as [c'|] eqn:Hget.
  - apply get_contact_by_id_Some in Hget as (Hc' & Hid' & _).
    f_equal. apply (unique_ids_eq db); congruence.
  - rewrite get_contact_by_id_None in Hget. by destruct (Hget c Hc).
Qed.

End primary_key.

(** X5: on a table with unique ids, a removal that finds its row makes
    the id unknown: after it no user reads a contact under that id, a
    second removal answers [None] and leaves the session alone, and the
    ids of the table are still unique. *)
Theorem remove_then_get_by_id (contact_id : Z) (user : User.t)
    (db db' : Session) (c : Contact.t) :
  unique_ids db →
  remove_contact contact_id user db = (Some c, db') →
  (∀ u, get_contact_by_id contact_id u db' = None)
  ∧ remove_contact contact_id user db' = (None, db')
  ∧ unique_ids db'.
Proof.
  intros Hnd Hrm.
  pose proof (remove_contact_unique_ids contact_id user db Hnd) as Hnd'.
  rewrite Hrm in Hnd'. simpl in Hnd'.
  apply remove_contact_shape in Hrm as (l1 & l2 & Hrows & -> & Hp & _).
  apply by_id_owner_true in Hp as [Hid _].
  assert (∀ y, y ∈ l1 ++ l2 → Contact.id y ≠ contact_id) as Hgone.
  { intros y Hy Hy_id. unfold unique_ids in Hnd. rewrite Hrows in Hnd.
    rewrite fmap_app, fmap_cons in Hnd.
    apply NoDup_app in Hnd as (_ & Hl1 & [Hl2 _]%NoDup_cons).
    apply elem_of_app in Hy as [Hy|Hy].
    - apply (Hl1 (Contact.id y)); [by apply list_elem_of_fmap_2|].
      rewrite Hy_id, Hid. apply list_elem_of_here.
    - apply Hl2. rewrite Hid, <- Hy_id. by apply list_elem_of_fmap_2. }
  split_and!; [| | done].
  - intros u. apply get_contact_by_id_None. simpl.
    intros y Hy [Hy_id _]. by apply (Hgone y).
  - unfold remove_contact. rewrite query_first_absent; [done|]. simpl.
    intros y Hy [Hy_id _]. by apply (Hgone y).
Qed.

Lemma remove_then_get_by_id_witness :
  let db' := (remove_contact 3 Sample.luffy Sample.db).2 in
  (∀ u, get_contact_by_id 3 u db' = None)
  ∧ remove_contact 3 Sample.luffy db' = (None, db')
  ∧ unique_ids db'.
Proof.
  intros db'.
  apply (remove_then_get_by_id 3 Sample.luffy Sample.db db' Sample.sanji).
  - unfold unique_ids. vm_compute.
    repeat (constructor; [rewrite ?elem_of_cons, elem_of_nil; lia|]). constructor.
  - vm_compute. reflexivity.
Defined.



(** X7: every session built from an empty table by creating, updating and
    removing contacts has unique ids, all below the sequence; there a read
    by id returns a contact exactly when the table holds a row with that
    id and owner, wherever the row stands. *)
Theorem reachable_unique_ids (db : Session) :
  reachable db →
  unique_ids db
  ∧ ids_below_sequence db
  ∧ ∀ contact_id user c,
      get_contact_by_id contact_id user db = Some c ↔
      c ∈ rows db ∧ Contact.id c = contact_id ∧ Contact.user_id c = User.id user.
Proof.
  intros [Hbelow Hnd]%reachable_keys. split_and!; [done..|].
  intros contact_id user c. by apply get_contact_by_id_unique.
Qed.

Lemma reachable_unique_ids_witness :
  let db1 := (create_contact Sample.body Sample.luffy (mk_session [] 1 0)).2 in
  let db2 := (create_contact Sample.body Sample.zoro db1).2 in
  let db3 := (remove_contact 1 Sample.luffy db2).2 in
  rows db3 = [(create_contact Sample.body Sample.zoro db1).1]
  ∧ unique_ids db3
  ∧ ids_below_sequence db3
  ∧ ∀ contact_id user c,
      get_contact_by_id contact_id user db3 = Some c ↔
      c ∈ rows db3 ∧ Contact.id c = contact_id ∧ Contact.user_id c = User.id user.
Proof.
  intros db1 db2 db3. split; [vm_compute; reflexivity|].
  apply (reachable_unique_ids db3).
  exists 0.
  eapply rtc_l; [apply (step_create Sample.body Sample.luffy)|].
  eapply rtc_l; [apply (step_create Sample.body Sample.zoro)|].
  eapply rtc_l; [apply (step_remove 1 Sample.luffy)|].
  apply rtc_refl.
Defined.

(** X8: the pages of the unfiltered listing fit together.  For offsets and
    sizes that are not negative and fit the engine's [bigint], the page of
    [a] rows at offset [skip] followed by the page of [b] rows at offset
    [skip + a] is the page of [a + b] rows at offset [skip]: paging
    through the listing neither drops nor repeats a row. *)
Theorem get_contacts_pages_concatenate (skip a b : Z)
    (first_name last_name email : option string) (user : User.t) (db : Session) :
  truthy first_name = false → truthy last_name = false → truthy email = false →
  0 ≤ skip → 0 ≤ a → 0 ≤ b →
  skip + a ≤ BIGINT_MAX → a + b ≤ BIGINT_MAX →
  ∃ l1 l2,
    get_contacts skip a first_name last_name email user db = Ok l1
    ∧ get_contacts (skip + a) b first_name last_name email user db = Ok l2
    ∧ get_contacts skip (a + b) first_name last_name email user db = Ok (l1 ++ l2).
Proof.
  intros Hfn Hln Hem Hs Ha Hb Hsa Hab. unfold get_contacts.
  rewrite Hfn, Hln, Hem. simpl.
  rewrite !offset_limit_Ok by lia.
  eexists _, _. split_and!; [done..|]. f_equal.
  rewrite !Z2Nat.inj_add by lia.
  by rewrite <- drop_drop, take_take_drop.
Qed.

Lemma get_contacts_pages_concatenate_witness :
  ∃ l1 l2,
    get_contacts 1 2 None None None Sample.luffy Sample.db = Ok l1
    ∧ get_contacts (1 + 2) 2 None None None Sample.luffy Sample.db = Ok l2
    ∧ get_contacts 1 (2 + 2) None None None Sample.luffy Sample.db = Ok (l1 ++ l2).
Proof.
  apply (get_contacts_pages_concatenate 1 2 2 None None None Sample.luffy Sample.db);
    [reflexivity | reflexivity | reflexivity | lia | lia | lia
     | window | window].
Defined.

(** ** When the birthday selector returns *)

Section selector_returns.
Variable today : datetime.date.
Implicit Types (c : Contact.t) (page : list Contact.t).

(** A valid date of birth re-anchors to any year of the calendar, except
    29 February to a year that is not leap. *)
Lemma reanchor_valid c :
  datetime.MINYEAR ≤ datetime.year today ≤ datetime.MAXYEAR →
  datetime.valid (Contact.date_of_birth c) →
  datetime.is_leap (datetime.year today) = true ∨ ¬ leap_day c →
  ∃ d, reanchor today c = Ok d.
Proof.
  unfold leap_day, reanchor, datetime.replace_year, datetime.valid.
  destruct (Contact.date_of_birth c) as [y0 m d]. simpl.
  unfold datetime.check_date_fields, datetime.MINYEAR, datetime.MAXYEAR.
  intros Hy Hv Hcase.
  rewrite !andb_true_iff, !Z.leb_le in Hv.
  destruct Hv as (((((_ & _) & Hm1) & Hm12) & Hd1) & Hd).
  assert (d ≤ datetime.days_in_month (datetime.year today) m) as Hd'.
  { revert Hd. unfold datetime.days_in_month.
    destruct (Z.eqb_spec m 2) as [->|_]; simpl; [|done].
    change (nth (Z.to_nat 2) datetime.DAYS_IN_MONTH (-1)) with 28.
    destruct Hcase as [-> | Hnot]; simpl.
    - destruct (datetime.is_leap y0); lia.
    - assert (d ≠ 29) by (intros ->; by apply Hnot).
      destruct (datetime.is_leap y0), (datetime.is_leap (datetime.year today)); lia. }
  eexists.
  destruct (_ && _) eqn:Hcheck; [done|].
  rewrite <- not_true_iff_false in Hcheck. destruct Hcheck.
  rewrite !andb_true_iff, !Z.leb_le. lia.
Qed.

Lemma filter_Forall_id {A} (P : A → Prop) `{!∀ x, Decision (P x)} (l : list A) :
  Forall P l → filter P l = l.
Proof.
  induction 1 as [|x l Hx _ IH]; [done|].
  by rewrite filter_cons_True, IH.
Qed.

End selector_returns.

(** X9: for a window that is not negative and fits the engine's [bigint],
    a current year of the calendar and valid dates of birth on the fetched
    page, the selector raises
    exactly in the leap-day case: it raises [ValueError] when the current
    year is not leap and a contact of the page was born on 29 February,
    and in every other case it returns the page filtered by the window. *)
Theorem get_contacts_birthdays_raises_iff_leap_day (today : datetime.date)
    (skip limit : Z) (user : User.t) (db : Session) :
  0 ≤ skip ≤ BIGINT_MAX → 0 ≤ limit ≤ BIGINT_MAX →
  datetime.MINYEAR ≤ datetime.year today ≤ datetime.MAXYEAR →
  (∀ c, c ∈ page_of skip limit user db →
        datetime.valid (Contact.date_of_birth c)) →
  (get_contacts_birthdays today skip limit user db = Raise ValueError ↔
   datetime.is_leap (datetime.year today) = false
   ∧ ∃ c, c ∈ page_of skip limit user db ∧ leap_day c)
  ∧ (datetime.is_leap (datetime.year today) = true
     ∨ (∀ c, c ∈ page_of skip limit user db → ¬ leap_day c) →
     get_contacts_birthdays today skip limit user db
     = Ok (filter (upcoming today) (page_of skip limit user db))).
Proof.
  intros Hs Hl Hy Hvalid.
  assert (datetime.is_leap (datetime.year today) = true
          ∨ (∀ c, c ∈ page_of skip limit user db → ¬ leap_day c) →
          get_contacts_birthdays today skip limit user db
          = Ok (filter (upcoming today) (page_of skip limit user db))) as Hok.
  { intros Hcase. rewrite get_contacts_birthdays_page by done.
    apply birthdays_loop_Ok. apply Forall_forall. intros c Hc.
    apply reanchor_valid; [done | by apply Hvalid |].
    destruct Hcase as [?|Hnone]; [by left | right; by apply Hnone]. }
  split; [|done]. split.
  - intros Hraise.
    destruct (datetime.is_leap (datetime.year today)) eqn:Hleap.
    { rewrite Hok in Hraise by (by left). done. }
    split; [done|].
    destruct (decide (Exists leap_day (page_of skip limit user db)))
      as [Hex|Hnone].
    + apply Exists_exists in Hex as (c & Hc & Hleapday). by exists c.
    + rewrite Hok in Hraise; [done|]. right. intros c Hc Hleapday.
      apply Hnone, Exists_exists. by exists c.
  - intros (Hleap & c & Hc & Hm & Hd).
    by apply (get_contacts_birthdays_leap_day today skip limit user db c).
Qed.

Lemma get_contacts_birthdays_raises_iff_leap_day_witness :
  get_contacts_birthdays (Sample.d 2024 2 25) 0 10 Sample.luffy Sample.db_leap
  = Ok [Sample.brook]
  ∧ get_contacts_birthdays (Sample.d 2023 2 25) 0 10 Sample.luffy Sample.db_leap
    = Raise ValueError.
Proof.
  assert (∀ c, c ∈ page_of 0 10 Sample.luffy Sample.db_leap →
               datetime.valid (Contact.date_of_birth c)) as Hvalid.
  { intros c Hc. vm_compute in Hc.
    repeat (apply elem_of_cons in Hc as [->|Hc]; [reflexivity|]).
    by apply elem_of_nil in Hc. }
  split.
  - destruct (get_contacts_birthdays_raises_iff_leap_day (Sample.d 2024 2 25) 0 10
                Sample.luffy Sample.db_leap) as [_ Hok];
      [window | window | vm_compute; split; discriminate | exact Hvalid |].
    rewrite Hok; [reflexivity | by left].
  - destruct (get_contacts_birthdays_raises_iff_leap_day (Sample.d 2023 2 25) 0 10
                Sample.luffy Sample.db_leap) as [Hraise _];
      [window | window | vm_compute; split; discriminate | exact Hvalid |].
    apply Hraise. split; [reflexivity|].
    exists Sample.brook. split; [|by split].
    vm_compute. right. left.
Defined.

(** X10: when every contact of the fetched page has the month and the day
    of today as its birthday, whatever the year of birth, the selector
    returns the whole page.  ([today] is a valid date and the window is
    not negative and fits the engine's [bigint].) *)
Theorem get_contacts_birthdays_born_today (today : datetime.date)
    (skip limit : Z) (user : User.t) (db : Session) :
  0 ≤ skip ≤ BIGINT_MAX → 0 ≤ limit ≤ BIGINT_MAX →
  datetime.valid today →
  (∀ c, c ∈ page_of skip limit user db →
        datetime.month (Contact.date_of_birth c) = datetime.month today
        ∧ datetime.day (Contact.date_of_birth c) = datetime.day today) →
  get_contacts_birthdays today skip limit user db
  = Ok (page_of skip limit user db).
Proof.
  intros Hs Hl Hvalid Hsame.
  assert (∀ c, c ∈ page_of skip limit user db → reanchor today c = Ok today)
    as Hre.
  { intros c [Hm Hd]%Hsame. unfold reanchor, datetime.replace_year.
    rewrite Hm, Hd. unfold datetime.valid in Hvalid. rewrite Hvalid.
    by destruct today. }
  rewrite get_contacts_birthdays_page by done.
  rewrite birthdays_loop_Ok.
  - simpl. f_equal. apply filter_Forall_id, Forall_forall.
    intros c Hc. exists today. split; [by apply Hre|].
    unfold datetime.sub_days. lia.
  - apply Forall_forall. intros c Hc. exists today. by apply Hre.
Qed.

Lemma get_contacts_birthdays_born_today_witness :
  get_contacts_birthdays (Sample.d 2023 2 28) 0 10 Sample.luffy
    (mk_session [Sample.row 1 "Luffy" "Monkey" "strawhatcaptain@meta.ua"
                   (Sample.d 2023 2 28) 1;
                 Sample.row 2 "Zoro" "Roronoa" "strawhatswordsman@meta.ua"
                   (Sample.d 1999 2 28) 1] 3 0)
  = Ok (page_of 0 10 Sample.luffy
          (mk_session [Sample.row 1 "Luffy" "Monkey" "strawhatcaptain@meta.ua"
                         (Sample.d 2023 2 28) 1;
                       Sample.row 2 "Zoro" "Roronoa" "strawhatswordsman@meta.ua"
                         (Sample.d 1999 2 28) 1] 3 0)).
Proof.
  apply get_contacts_birthdays_born_today; [window | window | reflexivity |].
  intros c Hc. vm_compute in Hc.
  repeat (apply elem_of_cons in Hc as [->|Hc]; [by split|]).
  by apply elem_of_nil in Hc.
Defined.

(** ** The path operations *)

Section path_operations.
Implicit Types (db : Session) (user : User.t) (c : Contact.t).

Lemma get_contacts_returns skip limit first_name last_name email user db :
  0 ≤ skip ≤ BIGINT_MAX → 0 ≤ limit ≤ BIGINT_MAX →
  bindable first_name = true → bindable last_name = true →
  bindable email = true →
  ∃ l, get_contacts skip limit first_name last_name email user db = Ok l.
Proof.
  intros Hs Hl Bf Bl Be. unfold get_contacts, query_all. simpl.
  rewrite Bf, Bl, Be. simpl.
  repeat match goal with
         | |- context [if ?b then _ else _] => destruct b
         end; eauto.
  rewrite offset_limit_Ok by done. eauto.
Qed.

Lemma get_contacts_no_contacts skip limit first_name last_name email user db :
  0 ≤ skip ≤ BIGINT_MAX → 0 ≤ limit ≤ BIGINT_MAX →
  bindable first_name = true → bindable last_name = true →
  bindable email = true →
  contacts_of user db = [] →
  get_contacts skip limit first_name last_name email user db = Ok [].
Proof.
  intros Hs Hl Bf Bl Be Hempty.
  unfold get_contacts, query_all, by_first_name, by_last_name, by_email.
  rewrite !query_filter_of_contacts_of, query_filter_by_owner, Hempty.
  rewrite offset_limit_Ok by done. rewrite drop_nil, take_nil. simpl.
  rewrite Bf, Bl, Be. simpl.
  by repeat match goal with
            | |- context [if ?b then _ else _] => destruct b
            end.
Qed.

(** A filter with a NUL character is never skipped: it is truthy, so its
    query is executed and the driver raises. *)
Lemma get_contacts_unbindable skip limit first_name last_name email user db :
  bindable first_name && bindable last_name && bindable email = false →
  get_contacts skip limit first_name last_name email user db = Raise ValueError.
Proof.
  intros Hnul. unfold get_contacts, query_all. simpl.
  destruct (truthy first_name) eqn:Tf; destruct (truthy last_name) eqn:Tl;
    destruct (truthy email) eqn:Te; simpl;
    try rewrite (bindable_falsy _ Tf) in *;
    try rewrite (bindable_falsy _ Tl) in *;
    try rewrite (bindable_falsy _ Te) in *;
    simpl in *; try done;
    destruct (bindable first_name), (bindable last_name), (bindable email);
    simpl in *; done.
Qed.

(** With no filter, a window outside the engine's range raises. *)
Lemma get_contacts_window_out_of_range skip limit first_name last_name email
    user db :
  truthy first_name = false → truthy last_name = false → truthy email = false →
  skip < 0 ∨ limit < 0 ∨ BIGINT_MAX < skip ∨ BIGINT_MAX < limit →
  get_contacts skip limit first_name last_name email user db = Raise DataError.
Proof.
  intros Hfn Hln Hem Hout. unfold get_contacts, offset_limit.
  rewrite Hfn, Hln, Hem. simpl.
  destruct (Z.ltb_spec skip 0); [done|].
  destruct (Z.ltb_spec limit 0); [done|].
  destruct (Z.ltb_spec BIGINT_MAX skip); [done|].
  destruct (Z.ltb_spec BIGINT_MAX limit); [done|]. lia.
Qed.



End path_operations.

(** X11: the outcomes of the listing route.  It never answers with an
    empty list: a returned list is the non-empty result of the repository
    and holds only rows of the caller.  With a window that is not negative
    and fits the engine's [bigint], and filters that the driver can bind
    (no NUL character), the route lets no exception through, and for a
    caller who owns no contact it raises the 404 of the listing, whatever
    the filters.  A filter with a NUL character sends the driver's
    [ValueError] through the route, and with no filter a window outside
    the engine's range sends its [DataError] through. *)
Theorem route_listing_outcomes (skip limit : Z)
    (first_name last_name email : option string) (db : Session)
    (current_user : User.t) :
  (∀ l, routes.get_contact_by_params skip limit first_name last_name email db
          current_user = routes.Return l →
        l ≠ []
        ∧ get_contacts skip limit first_name last_name email current_user db = Ok l
        ∧ ∀ c, c ∈ l → c ∈ rows db ∧ Contact.user_id c = User.id current_user)
  ∧ (0 ≤ skip ≤ BIGINT_MAX → 0 ≤ limit ≤ BIGINT_MAX →
     bindable first_name = true → bindable last_name = true →
     bindable email = true →
     (∀ e, routes.get_contact_by_params skip limit first_name last_name email db
             current_user ≠ routes.Propagate e)
     ∧ (contacts_of current_user db = [] →
        routes.get_contact_by_params skip limit first_name last_name email db
          current_user
        = routes.HTTPException 404 "Contacts with requested parameters not found"))
  ∧ (bindable first_name && bindable last_name && bindable email = false →
     routes.get_contact_by_params skip limit first_name last_name email db
       current_user
     = routes.Propagate ValueError)
  ∧ (truthy first_name = false → truthy last_name = false →
     truthy email = false →
     skip < 0 ∨ limit < 0 ∨ BIGINT_MAX < skip ∨ BIGINT_MAX < limit →
     routes.get_contact_by_params skip limit first_name last_name email db
       current_user
     = routes.Propagate DataError).
Proof.
  split_and!.
  - intros l. unfold routes.get_contact_by_params.
    destruct (get_contacts _ _ _ _ _ _ _) as [[|c0 l0]|e] eqn:Hget; [done| |done].
    intros [= <-]. split_and!; [done..|].
    intros c Hc. by eapply get_contacts_owner.
  - intros Hs Hl Bf Bl Be. split.
    + intros e. unfold routes.get_contact_by_params.
      destruct (get_contacts_returns skip limit first_name last_name email
                  current_user db Hs Hl Bf Bl Be) as [l ->].
      by destruct l.
    + intros Hempty. unfold routes.get_contact_by_params.
      by rewrite get_contacts_no_contacts.
  - intros Hnul. unfold routes.get_contact_by_params.
    by rewrite get_contacts_unbindable.
  - intros Hfn Hln Hem Hout. unfold routes.get_contact_by_params.
    by rewrite get_contacts_window_out_of_range.
Qed.

Lemma route_listing_outcomes_witness :
  let nobody := User.mk 3 "nobody" "nobody@meta.ua" true in
  (∀ e, routes.get_contact_by_params 0 10 (Some "Nami") None None Sample.db nobody
        ≠ routes.Propagate e)
  ∧ routes.get_contact_by_params 0 10 (Some "Nami") None None Sample.db nobody
    = routes.HTTPException 404 "Contacts with requested parameters not found"
  ∧ routes.get_contact_by_params 0 10 (Some (String Ascii.zero "Nami")) None None
      Sample.db Sample.luffy
    = routes.Propagate ValueError
  ∧ routes.get_contact_by_params 0 (BIGINT_MAX + 1) None None None
      Sample.db Sample.luffy
    = routes.Propagate DataError.
Proof.
  intros nobody.
  destruct (route_listing_outcomes 0 10 (Some "Nami") None None Sample.db nobody)
    as (_ & Hwindow & _ & _).
  destruct Hwindow as [Hnever H404];
    [window | window | reflexivity | reflexivity | reflexivity |].
  destruct (route_listing_outcomes 0 10 (Some (String Ascii.zero "Nami")) None None
              Sample.db Sample.luffy) as (_ & _ & Hnul & _).
  destruct (route_listing_outcomes 0 (BIGINT_MAX + 1) None None None
              Sample.db Sample.luffy) as (_ & _ & _ & Hrange).
  split_and!.
  - exact Hnever.
  - apply H404. reflexivity.
  - apply Hnul. reflexivity.
  - apply Hrange; [reflexivity | reflexivity | reflexivity |].
    do 3 right. window.
Defined.

(** X12: on a table with unique ids, the id of a contact owned by somebody
    else is to the caller an id that does not exist.  Reading, updating
    and deleting it each raise the 404 of a missing contact, the same
    answer as for an id no row has, and the two writing routes leave the
    session as it was. *)
Theorem route_foreign_contact_not_found (body : ContactModel.t) (db : Session)
    (current_user : User.t) (c : Contact.t) :
  unique_ids db →
  c ∈ rows db →
  Contact.user_id c ≠ User.id current_user →
  let not_found :=
    routes.HTTPException 404 "Contact with requested id not found" in
  routes.get_contact (Contact.id c) db current_user = not_found
  ∧ routes.update_contact body (Contact.id c) db current_user = (not_found, db)
  ∧ routes.remove_tag (Contact.id c) db current_user = (not_found, db)
  ∧ ∀ unused, (∀ r, r ∈ rows db → Contact.id r ≠ unused) →
      routes.get_contact unused db current_user = not_found
      ∧ routes.update_contact body unused db current_user = (not_found, db)
      ∧ routes.remove_tag unused db current_user = (not_found, db).
Proof.
  intros Hnd Hc Hown not_found.
  assert (∀ contact_id,
            (∀ r, r ∈ rows db →
                  ¬ (Contact.id r = contact_id
                     ∧ Contact.user_id r = User.id current_user)) →
            routes.get_contact contact_id db current_user = not_found
            ∧ routes.update_contact body contact_id db current_user
              = (not_found, db)
            ∧ routes.remove_tag contact_id db current_user = (not_found, db))
    as Habsent.
  { intros contact_id Habs.
    unfold routes.get_contact, routes.update_contact, routes.remove_tag,
      get_contact_by_id, update_contact, remove_contact.
    by rewrite (query_first_absent _ _ _ Habs). }
  destruct (Habsent (Contact.id c)) as (Hget & Hput & Hdel).
  { intros r Hr [Hid Hr_own].
    assert (r = c) as -> by by apply (unique_ids_eq db).
    done. }
  split_and!; [done..|].
  intros unused Hunused. apply Habsent.
  intros r Hr [Hid _]. by apply (Hunused r).
Qed.

Lemma route_foreign_contact_not_found_witness :
  let not_found :=
    routes.HTTPException 404 "Contact with requested id not found" in
  routes.get_contact 5 Sample.db Sample.luffy = not_found
  ∧ routes.update_contact Sample.body 5 Sample.db Sample.luffy = (not_found, Sample.db)
  ∧ routes.remove_tag 5 Sample.db Sample.luffy = (not_found, Sample.db)
  ∧ ∀ unused, (∀ r, r ∈ rows Sample.db → Contact.id r ≠ unused) →
      routes.get_contact unused Sample.db Sample.luffy = not_found
      ∧ routes.update_contact Sample.body unused Sample.db Sample.luffy
        = (not_found, Sample.db)
      ∧ routes.remove_tag unused Sample.db Sample.luffy = (not_found, Sample.db).
Proof.
  apply (route_foreign_contact_not_found Sample.body Sample.db Sample.luffy
           Sample.chopper).
  - unfold unique_ids. vm_compute.
    repeat (constructor; [rewrite ?elem_of_cons, elem_of_nil; lia|]). constructor.
  - vm_compute. do 4 right. left.
  - vm_compute. discriminate.
Defined.

(** X13: the outcomes of the birthday route for a window that is not
    negative and fits the engine's [bigint].  When the dates of the fetched page re-anchor to the current
    year, the route raises its 404 if no contact of the page has a
    birthday in the window, and otherwise returns the filtered page, which
    holds every such contact; when a date does not re-anchor, the
    [ValueError] of the repository passes through the route. *)
Theorem route_birthdays_outcomes (today : datetime.date) (skip limit : Z)
    (db : Session) (current_user : User.t) :
  0 ≤ skip ≤ BIGINT_MAX → 0 ≤ limit ≤ BIGINT_MAX →
  (reanchors today (page_of skip limit current_user db) →
   (∀ c, c ∈ page_of skip limit current_user db → ¬ upcoming today c) →
   routes.get_birthdays today skip limit db current_user
   = routes.HTTPException 404
       "Contacts with birthdays for the next 7 days not found")
  ∧ (reanchors today (page_of skip limit current_user db) →
     ∀ c, c ∈ page_of skip limit current_user db → upcoming today c →
          routes.get_birthdays today skip limit db current_user
          = routes.Return (filter (upcoming today)
                             (page_of skip limit current_user db))
          ∧ c ∈ filter (upcoming today) (page_of skip limit current_user db))
  ∧ (¬ reanchors today (page_of skip limit current_user db) →
     routes.get_birthdays today skip limit db current_user
     = routes.Propagate ValueError).
Proof.
  intros Hs Hl. unfold routes.get_birthdays.
  rewrite get_contacts_birthdays_page by done. split_and!.
  - intros Hall Hnone. rewrite birthdays_loop_Ok by done. simpl.
    assert (filter (upcoming today) (page_of skip limit current_user db) = [])
      as ->; [|done].
    apply elem_of_nil_inv. intros c [Hup Hc]%list_elem_of_filter.
    by apply (Hnone c).
  - intros Hall c Hc Hup. rewrite birthdays_loop_Ok by done. simpl.
    assert (c ∈ filter (upcoming today) (page_of skip limit current_user db))
      as Hin by by apply list_elem_of_filter.
    split; [|done].
    by destruct (filter _ _); [apply elem_of_nil in Hin|].
  - intros Hnot.
    destruct (birthdays_loop today _ []) as [l|e] eqn:Hloop.
    + by apply birthdays_loop_inv in Hloop as [? _].
    + by apply birthdays_loop_Raise in Hloop as [-> _].
Qed.

Lemma route_birthdays_outcomes_witness :
  routes.get_birthdays (Sample.d 2023 12 29) 0 10 Sample.db Sample.luffy
  = routes.HTTPException 404 "Contacts with birthdays for the next 7 days not found"
  ∧ routes.get_birthdays (Sample.d 2024 5 5) 0 10 Sample.db Sample.luffy
    = routes.Return [Sample.nami; Sample.usopp]
  ∧ routes.get_birthdays (Sample.d 2023 2 25) 0 10 Sample.db_leap Sample.luffy
    = routes.Propagate ValueError.
Proof.
  split_and!.
  - destruct (route_birthdays_outcomes (Sample.d 2023 12 29) 0 10 Sample.db
                Sample.luffy) as (H404 & _ & _); [window | window |].
    apply H404.
    + vm_compute. repeat (constructor; [eexists; reflexivity|]). constructor.
    + intros c Hc. vm_compute in Hc.
      repeat (apply elem_of_cons in Hc as [->|Hc];
              [apply (bool_decide_eq_false_1 _); reflexivity|]).
      by apply elem_of_nil in Hc.
  - destruct (route_birthdays_outcomes (Sample.d 2024 5 5) 0 10 Sample.db
                Sample.luffy) as (_ & Hsome & _); [window | window |].
    destruct (Hsome ltac:(vm_compute;
                          repeat (constructor; [eexists; reflexivity|]);
                          constructor) Sample.nami) as [-> _].
    + vm_compute. left.
    + apply (bool_decide_eq_true_1 _). reflexivity.
    + reflexivity.
  - destruct (route_birthdays_outcomes (Sample.d 2023 2 25) 0 10 Sample.db_leap
                Sample.luffy) as (_ & _ & Hraise); [window | window |].
    apply Hraise. intros Hall.
    assert (Sample.brook ∈ page_of 0 10 Sample.luffy Sample.db_leap) as Hin
      by (vm_compute; right; left).
    unfold reanchors in Hall. rewrite Forall_forall in Hall.
    by destruct (Hall _ Hin) as [d Hd].
Defined.


